(** * AI Background Remover: the API client and the view controller

    A shallow embedding of [services/geminiService.ts] (the API client,
    [removeBackground]) and of the [App] component (the controller:
    [processFile], [handleReset], [handleFileChange], [handleDrop],
    [renderContent], [downloadImage]).

    Both source functions are [async]: they are embedded as programs of a
    small free monad whose nodes are the synchronous effects (state
    setters, [process.env], object URLs, the console) and the suspension
    points ([await]).  A program runs until it parks on an [await]; the
    event loop ([react], [dispatch]) resumes parked programs when the
    environment settles what they wait for, and dispatches the user's
    events to the handlers that the rendered view mounts. *)

From stdpp Require Import base option list strings gmap pretty.
From Stdlib Require Import ZArith Ascii String Lia.

Local Open Scope Z_scope.

(** ** JavaScript values used by the two files *)

Module JS.

(** A thrown value: an [Error] instance with its [message], or any
    other value ([error instanceof Error] is false), kept as its text. *)
Inductive Thrown : Type :=
| Error (message : string)
| Other (shown : string).

(** Truthiness of a [string | undefined] value: [undefined] and the
    empty string are falsy. *)
Definition truthy (v : option string) : bool :=
  match v with
  | Some "" => false
  | Some _ => true
  | None => false
  end.

(** [v || d] on a [string | undefined] left operand. *)
Definition or_else (v : option string) (d : string) : string :=
  match v with
  | Some "" => d
  | Some s => s
  | None => d
  end.

(** [`${v}`]: template interpolation of a [string | undefined]. *)
Definition interpolate (v : option string) : string :=
  match v with
  | Some s => s
  | None => "undefined"
  end.

(** [s.split(sep)] for a one-character separator: never empty, the
    pieces between the separators in order. *)
Fixpoint split (sep : ascii) (s : string) : list string :=
  match s with
  | EmptyString => [EmptyString]
  | String c s' =>
      if Ascii.eqb c sep then EmptyString :: split sep s'
      else match split sep s' with
           | [] => [String c EmptyString]
           | w :: ws => String c w :: ws
           end
  end.

(** [s.lastIndexOf(c)] for a one-character search string, counting from
    [i] at the head of [s]: the index of the last occurrence, or [-1]. *)
Fixpoint lastIndexOf_from (i : Z) (s : string) (c : ascii) : Z :=
  match s with
  | EmptyString => -1
  | String a s' =>
      let later := lastIndexOf_from (i + 1) s' c in
      if (0 <=? later)%Z then later
      else if Ascii.eqb a c then i else -1
  end.

Definition lastIndexOf (s : string) (c : ascii) : Z :=
  lastIndexOf_from 0 s c.

(** [s.substring(start, end)]: both indices are clamped to
    [0 .. s.length] and swapped when [start > end]. *)
Definition substring (s : string) (start end_ : Z) : string :=
  let len := Z.of_nat (String.length s) in
  let clamp i := Z.max 0 (Z.min i len) in
  let a := Z.min (clamp start) (clamp end_) in
  let b := Z.max (clamp start) (clamp end_) in
  String.substring (Z.to_nat a) (Z.to_nat (b - a)) s.

End JS.

(** ** Data of the browser and of the generation service *)

(** A browser [File]: the two attributes the code reads. *)
Record File : Type := { name : string; type : string }.

(** [Blob], [Part], [Content], [Candidate] and [GenerateContentResponse]
    of the service's client library; every field is optional there. *)
Record Blob : Type := { data : option string; mimeType : option string }.
Record Part : Type := { inlineData : option Blob; text : option string }.
Record Content : Type := { parts : option (list Part) }.
Record Candidate : Type := { content : option Content }.
Record GenerateContentResponse : Type :=
  { candidates : option (list Candidate) }.

Inductive Modality : Type := IMAGE | TEXT.

Record GenerateContentConfig : Type :=
  { responseModalities : list Modality }.

Record GenerateContentParameters : Type :=
  { model : string;
    contents : Content;
    config : GenerateContentConfig }.

(** [new GoogleGenAI({ apiKey })]. *)
Record GoogleGenAI : Type := { apiKey : option string }.

(** ** The controller's state *)

Inductive AppState : Type := initial | loading | result | error.

(** The five [useState] cells of [App]. *)
Record Session : Type :=
  { originalFile : option File;
    originalImageUrl : option string;
    processedImageUrl : option string;
    appState : AppState;
    errorMessage : string }.

(** ** Programs: synchronous effects and suspension points *)

Inductive SyncOp : Type -> Type :=
| GetEnv (key : string) : SyncOp (option string)
| SetOriginalFile (v : option File) : SyncOp unit
| SetOriginalImageUrl (v : option string) : SyncOp unit
| SetProcessedImageUrl (v : option string) : SyncOp unit
| SetAppState (v : AppState) : SyncOp unit
| SetErrorMessage (v : string) : SyncOp unit
| CreateObjectURL (f : File) : SyncOp string
| RevokeObjectURL (u : string) : SyncOp unit
| ConsoleError (label : string) (e : JS.Thrown) : SyncOp unit.

Inductive AsyncOp : Type -> Type :=
| ReadAsDataURL (f : File) : AsyncOp (option string)
| GenerateContent (ai : GoogleGenAI) (req : GenerateContentParameters)
  : AsyncOp GenerateContentResponse
| Microtask : AsyncOp unit.

Inductive Prog (A : Type) : Type :=
| Ret (a : A)
| Throw (e : JS.Thrown)
| Do {X : Type} (op : SyncOp X) (k : X -> Prog A)
| Await {X : Type} (op : AsyncOp X) (k : X -> Prog A) (h : JS.Thrown -> Prog A).

Arguments Ret {A} a.
Arguments Throw {A} e.
Arguments Do {A X} op k.
Arguments Await {A X} op k h.

Fixpoint bind {A B : Type} (p : Prog A) (f : A -> Prog B) : Prog B :=
  match p with
  | Ret a => f a
  | Throw e => Throw e
  | Do op k => Do op (fun x => bind (k x) f)
  | Await op k h => Await op (fun x => bind (k x) f) (fun e => bind (h e) f)
  end.

(** [try { p } catch (e) { handler e }]. *)
Fixpoint try_catch {A : Type} (p : Prog A) (handler : JS.Thrown -> Prog A)
  : Prog A :=
  match p with
  | Ret a => Ret a
  | Throw e => handler e
  | Do op k => Do op (fun x => try_catch (k x) handler)
  | Await op k h =>
      Await op (fun x => try_catch (k x) handler)
               (fun e => try_catch (h e) handler)
  end.

(** [await f(..)] for an [async] function [f]: the callee runs, parking
    at its own suspension points; once it has settled, the caller resumes
    one microtask later with the value or the thrown value. *)
Fixpoint await_call {A : Type} (callee : Prog A) : Prog A :=
  match callee with
  | Ret a => Await Microtask (fun _ => Ret a) Throw
  | Throw e => Await Microtask (fun _ => Throw e) Throw
  | Do op k => Do op (fun x => await_call (k x))
  | Await op k h =>
      Await op (fun x => await_call (k x)) (fun e => await_call (h e))
  end.

(** A synchronous effect, and the [await] of a pending operation whose
    rejection is thrown at the [await]. *)
Definition perform {X : Type} (op : SyncOp X) : Prog X := Do op Ret.
Definition await {X : Type} (op : AsyncOp X) : Prog X := Await op Ret Throw.

#[export] Instance Prog_ret : MRet Prog := fun A a => Ret a.
#[export] Instance Prog_bind : MBind Prog := fun A B f p => bind p f.

(** ** services/geminiService.ts *)

Definition instruction : string :=
  "Remove the background of this image. Make the background transparent. Output a PNG file.".

Definition missing_key_message : string :=
  "API_KEY environment variable is not set.".

Definition text_response_prefix : string :=
  "API returned a text response instead of an image: ".

Definition no_image_message : string :=
  "Failed to process the image. The API did not return an image.".

(** [fileToGenerativePart]: the promise resolves in [onloadend] with the
    part of [reader.result] after the first comma, or with the empty
    string when the result is not a string. *)
Definition fileToGenerativePart (file : File) : Prog Part :=
  base64Data ←
    (reader_result ← await (ReadAsDataURL file);
     Ret (match reader_result with
          | Some s => JS.split "," s !! 1%nat
          | None => Some ""
          end));
  Ret {| inlineData := Some {| data := base64Data;
                               mimeType := Some (type file) |};
         text := None |}.

(** [response.candidates?.[0]?.content?.parts?.find(pred)]. *)
Definition find_part (pred : Part -> bool) (response : GenerateContentResponse)
  : option Part :=
  cs ← candidates response;
  first ← cs !! 0%nat;
  c ← content first;
  ps ← parts c;
  List.find pred ps.

Definition removeBackground (imageFile : File) : Prog (option string) :=
  key ← perform (GetEnv "API_KEY");
  if negb (JS.truthy key) then Throw (JS.Error missing_key_message)
  else
    key' ← perform (GetEnv "API_KEY");
    let ai := {| apiKey := key' |} in
    imagePart ← await_call (fileToGenerativePart imageFile);
    response ← await (GenerateContent ai
      {| model := "gemini-2.5-flash-image-preview";
         contents := {| parts := Some
           [ imagePart;
             {| inlineData := None; text := Some instruction |} ] |};
         config := {| responseModalities := [IMAGE; TEXT] |} |});
    let imageResponsePart :=
      find_part (fun part => bool_decide (is_Some (inlineData part))) response in
    match imageResponsePart ≫= inlineData with
    | Some blob => Ret (data blob)
    | None =>
        let textResponsePart :=
          find_part (fun part => JS.truthy (text part)) response in
        if JS.truthy (textResponsePart ≫= text) then
          Throw (JS.Error (text_response_prefix
                             +:+ JS.interpolate (textResponsePart ≫= text)))
        else Throw (JS.Error no_image_message)
    end.

Arguments removeBackground : simpl never.

(** ** The [App] component *)

Definition unknown_error_message : string :=
  "An unknown error occurred. Please try again.".

Definition processFile (file : File) : Prog unit :=
  perform (SetAppState loading);;
  perform (SetOriginalFile (Some file));;
  perform (SetProcessedImageUrl None);;
  perform (SetErrorMessage "");;
  url ← perform (CreateObjectURL file);
  perform (SetOriginalImageUrl (Some url));;
  try_catch
    (resultBase64 ← await_call (removeBackground file);
     perform (SetProcessedImageUrl
                (Some ("data:image/png;base64," +:+ JS.interpolate resultBase64)));;
     perform (SetAppState result))
    (fun err =>
       perform (ConsoleError "Error processing image:" err);;
       perform (SetErrorMessage
                  (match err with
                   | JS.Error message => message
                   | JS.Other _ => unknown_error_message
                   end));;
       perform (SetAppState error)).

(** [handleFileChange]: [file] is [event.target.files?.[0]].  The call of
    [processFile] is not awaited and nothing follows it. *)
Definition handleFileChange (file : option File) : Prog unit :=
  match file with
  | Some f => processFile f
  | None => Ret tt
  end.

(** A call on a DOM event or on the class list of its current target. *)
Inductive DomCall : Type :=
| PreventDefault
| StopPropagation
| ClassListAdd (tokens : list string)
| ClassListRemove (tokens : list string).

(** A handler that starts with calls on its event: the calls, in order,
    and what it does to the controller afterwards. *)
Record Handler : Type := { calls : list DomCall; task : Prog unit }.

(** [handleDrop]: [file] is [event.dataTransfer.files?.[0]].  The event
    is cancelled and the highlight is taken off the drop zone whatever
    was dropped. *)
Definition handleDrop (file : option File) : Handler :=
  {| calls := [ PreventDefault;
                StopPropagation;
                ClassListRemove ["border-indigo-400"; "bg-gray-800"] ];
     task :=
       match file with
       | Some f =>
           if String.prefix "image/" (type f) then processFile f else Ret tt
       | None => Ret tt
       end |}.

(** [handleReset]; [url] is the [originalImageUrl] of the render whose
    closure the callback belongs to. *)
Definition handleReset (url : option string) : Prog unit :=
  perform (SetOriginalFile None);;
  match url with
  | Some u => if JS.truthy url then perform (RevokeObjectURL u) else Ret tt
  | None => Ret tt
  end;;
  perform (SetOriginalImageUrl None);;
  perform (SetProcessedImageUrl None);;
  perform (SetErrorMessage "");;
  perform (SetAppState initial).

(** What [renderContent] mounts; [ResultView] and [ErrorView] carry
    [onReset = handleReset], [UploadView] carries [handleFileChange] and
    [handleDrop], [LoadingView] carries no handler. *)
Inductive View : Type :=
| LoadingView (imageUrl : option string)
| ResultView (original processed fileName : option string)
| ErrorView (message : string)
| UploadView.

Definition renderContent (s : Session) : View :=
  match appState s with
  | loading => LoadingView (originalImageUrl s)
  | result =>
      ResultView (originalImageUrl s) (processedImageUrl s)
                 (name <$> originalFile s)
  | error => ErrorView (errorMessage s)
  | initial => UploadView
  end.

(** The anchor element that [downloadImage] builds and clicks. *)
Record Download : Type := { href : option string; download : string }.

Definition downloadImage (processed fileName : option string) : Download :=
  let baseName :=
    JS.or_else
      ((fun fileName => JS.substring fileName 0 (JS.lastIndexOf fileName "."))
         <$> fileName)
      "image" in
  {| href := processed; download := baseName +:+ "_no_bg.png" |}.

(** ** Running a program up to its next suspension point *)

(** One entry per effect, in the order the effects happen. *)
Inductive Action : Type :=
| Did {X : Type} (op : SyncOp X)
| Started {X : Type} (op : AsyncOp X).

(** What the synchronous effects act on: [process.env], the five state
    cells, the number of object URLs the browser has handed out, and the
    log of the effects so far. *)
Record Store : Type :=
  { env : gmap string string;
    session : Session;
    minted : nat;
    log : list Action }.

Definition update (f : Session -> Session) (st : Store) : Store :=
  {| env := env st; session := f (session st);
     minted := minted st; log := log st |}.

Definition record (a : Action) (st : Store) : Store :=
  {| env := env st; session := session st;
     minted := minted st; log := log st ++ [a] |}.

Definition setOriginalFile (v : option File) (s : Session) : Session :=
  {| originalFile := v;
     originalImageUrl := originalImageUrl s;
     processedImageUrl := processedImageUrl s;
     appState := appState s;
     errorMessage := errorMessage s |}.

Definition setOriginalImageUrl (v : option string) (s : Session) : Session :=
  {| originalFile := originalFile s;
     originalImageUrl := v;
     processedImageUrl := processedImageUrl s;
     appState := appState s;
     errorMessage := errorMessage s |}.

Definition setProcessedImageUrl (v : option string) (s : Session) : Session :=
  {| originalFile := originalFile s;
     originalImageUrl := originalImageUrl s;
     processedImageUrl := v;
     appState := appState s;
     errorMessage := errorMessage s |}.

Definition setAppState (v : AppState) (s : Session) : Session :=
  {| originalFile := originalFile s;
     originalImageUrl := originalImageUrl s;
     processedImageUrl := processedImageUrl s;
     appState := v;
     errorMessage := errorMessage s |}.

Definition setErrorMessage (v : string) (s : Session) : Session :=
  {| originalFile := originalFile s;
     originalImageUrl := originalImageUrl s;
     processedImageUrl := processedImageUrl s;
     appState := appState s;
     errorMessage := v |}.

(** The object URL the browser hands out: a fresh [blob:] URL. *)
Definition object_url (n : nat) : string := "blob:" +:+ pretty n.

Definition effect {X : Type} (op : SyncOp X) (st : Store) : X * Store :=
  match op in SyncOp X return X * Store with
  | GetEnv key => (env st !! key, st)
  | SetOriginalFile v => (tt, update (setOriginalFile v) st)
  | SetOriginalImageUrl v => (tt, update (setOriginalImageUrl v) st)
  | SetProcessedImageUrl v => (tt, update (setProcessedImageUrl v) st)
  | SetAppState v => (tt, update (setAppState v) st)
  | SetErrorMessage v => (tt, update (setErrorMessage v) st)
  | CreateObjectURL _ =>
      (object_url (minted st),
       {| env := env st; session := session st;
          minted := S (minted st); log := log st |})
  | RevokeObjectURL _ => (tt, st)
  | ConsoleError _ _ => (tt, st)
  end.

Inductive Status (A : Type) : Type :=
| Done (a : A)
| Failed (e : JS.Thrown)
| Parked {X : Type} (op : AsyncOp X) (k : X -> Prog A) (h : JS.Thrown -> Prog A).

Arguments Done {A} a.
Arguments Failed {A} e.
Arguments Parked {A X} op k h.

(** Run [p] until it returns, throws, or starts an asynchronous operation
    and parks on it. *)
Fixpoint run {A : Type} (p : Prog A) (st : Store) : Store * Status A :=
  match p with
  | Ret a => (st, Done a)
  | Throw e => (st, Failed e)
  | Do op k =>
      let '(x, st') := effect op (record (Did op) st) in
      run (k x) st'
  | Await op k h => (record (Started op) st, Parked op k h)
  end.

(** ** The event loop *)

(** A suspended activation of an [async] function. *)
Inductive Task : Type :=
| Suspended {X : Type} (op : AsyncOp X)
    (k : X -> Prog unit) (h : JS.Thrown -> Prog unit).

Record Machine : Type :=
  { store : Store;
    pending : list Task;
    downloads : list Download }.

Definition boot (e : gmap string string) : Machine :=
  {| store :=
       {| env := e;
          session := {| originalFile := None;
                        originalImageUrl := None;
                        processedImageUrl := None;
                        appState := initial;
                        errorMessage := "" |};
          minted := 0;
          log := [] |};
     pending := [];
     downloads := [] |}.

Definition current (m : Machine) : Session := session (store m).

(** Start or continue a handler: it runs up to its next suspension point
    and is parked there.  A handler that ends, normally or by an uncaught
    throw, leaves nothing behind. *)
Definition park (status : Status unit) : list Task :=
  match status with
  | Parked op k h => [Suspended op k h]
  | Done _ | Failed _ => []
  end.

Definition schedule (p : Prog unit) (m : Machine) : Machine :=
  let '(st, status) := run p (store m) in
  {| store := st;
     pending := pending m ++ park status;
     downloads := downloads m |}.

(** The [useEffect] of [App]: when a render replaces [originalImageUrl],
    the cleanup of the previous render revokes the URL it held. *)
Definition cleanup (before : option string) (m : Machine) : Machine :=
  match before with
  | Some u =>
      if bool_decide (originalImageUrl (current m) = before) then m
      else if JS.truthy before then
        {| store := snd (effect (RevokeObjectURL u)
                           (record (Did (RevokeObjectURL u)) (store m)));
           pending := pending m;
           downloads := downloads m |}
      else m
  | None => m
  end.

(** How the environment settles a pending operation. *)
Inductive Reply : Type :=
| Loaded (reader_result : option string)
| Responded (response : GenerateContentResponse)
| Rejected (reason : JS.Thrown)
| Ticked.

(** The file reader always reaches [onloadend]; the service call resolves
    or rejects; a microtask just runs. *)
Definition settle {X : Type} (op : AsyncOp X) (r : Reply)
  : option (JS.Thrown + X) :=
  match op in AsyncOp X return option (JS.Thrown + X) with
  | ReadAsDataURL _ =>
      match r with Loaded v => Some (inr v) | _ => None end
  | GenerateContent _ _ =>
      match r with
      | Responded v => Some (inr v)
      | Rejected e => Some (inl e)
      | _ => None
      end
  | Microtask =>
      match r with Ticked => Some (inr tt) | _ => None end
  end.

Definition resume (t : Task) (r : Reply) : option (Prog unit) :=
  match t with
  | Suspended op k h =>
      match settle op r with
      | Some (inr x) => Some (k x)
      | Some (inl e) => Some (h e)
      | None => None
      end
  end.

Inductive Event : Type :=
| FileChange (file : option File)
| Drop (file : option File)
| ClickReset
| ClickDownload
| Settle (i : nat) (r : Reply).

(** One turn of the event loop.  A user event is accepted only when the
    view that is on screen mounts its handler; [Settle i r] resumes the
    [i]-th parked activation when [r] answers what it waits for.  The
    machine holds the controller, not the page: the [calls] of a handler
    act on the event and on the drop zone, and only its [task] runs
    here. *)
Definition react (m : Machine) (ev : Event) : option Machine :=
  match ev with
  | FileChange file =>
      match renderContent (current m) with
      | UploadView => Some (schedule (handleFileChange file) m)
      | _ => None
      end
  | Drop file =>
      match renderContent (current m) with
      | UploadView => Some (schedule (task (handleDrop file)) m)
      | _ => None
      end
  | ClickReset =>
      match renderContent (current m) with
      | ResultView _ _ _ | ErrorView _ =>
          Some (schedule (handleReset (originalImageUrl (current m))) m)
      | _ => None
      end
  | ClickDownload =>
      match renderContent (current m) with
      | ResultView _ processed fileName =>
          Some {| store := store m;
                  pending := pending m;
                  downloads := downloads m ++ [downloadImage processed fileName] |}
      | _ => None
      end
  | Settle i r =>
      t ← pending m !! i;
      p ← resume t r;
      Some (schedule p {| store := store m;
                          pending := delete i (pending m);
                          downloads := downloads m |})
  end.

Definition dispatch (m : Machine) (ev : Event) : option Machine :=
  cleanup (originalImageUrl (current m)) <$> react m ev.

Fixpoint exec (m : Machine) (evs : list Event) : option Machine :=
  match evs with
  | [] => Some m
  | ev :: evs' => m' ← dispatch m ev; exec m' evs'
  end.

(** The machine states the application can be in when started with the
    environment [e]. *)
Definition reachable (e : gmap string string) (m : Machine) : Prop :=
  exists evs, exec (boot e) evs = Some m.

(** ** A call awaited to its settlement *)

(** Run [p] to the end, the environment settling each operation [p]
    parks on with the next reply.  The result is [None] when a reply does
    not answer the pending operation, or when the number of replies is not
    the number of suspensions. *)
Fixpoint complete {A : Type} (p : Prog A) (st : Store) (replies : list Reply)
  : option (Store * (JS.Thrown + A)) :=
  match p with
  | Ret a => match replies with [] => Some (st, inr a) | _ => None end
  | Throw e => match replies with [] => Some (st, inl e) | _ => None end
  | Do op k =>
      let '(x, st') := effect op (record (Did op) st) in
      complete (k x) st' replies
  | Await op k h =>
      match replies with
      | [] => None
      | r :: replies' =>
          match settle op r with
          | Some (inr x) => complete (k x) (record (Started op) st) replies'
          | Some (inl e) => complete (h e) (record (Started op) st) replies'
          | None => None
          end
      end
  end.

(** ** Vocabulary of the statements *)

(** [msg] contains [t] as a contiguous piece. *)
Definition embeds (t msg : string) : Prop :=
  exists before after, msg = before +:+ t +:+ after.

(** The parts that the client scans: those of the first candidate's
    content, none when any link of the chain is missing. *)
Definition response_parts (response : GenerateContentResponse) : list Part :=
  default [] (cs ← candidates response;
              first ← cs !! 0%nat;
              c ← content first;
              parts c).

(** The session with every field cleared. *)
Definition blank : Session :=
  {| originalFile := None;
     originalImageUrl := None;
     processedImageUrl := None;
     appState := initial;
     errorMessage := "" |}.

(** The part of a file name before its last dot, in the words of the
    description: [base] is followed by a dot and a dot-free extension. *)
Fixpoint dotless (ext : string) : Prop :=
  match ext with
  | EmptyString => True
  | String c ext' => c <> "."%char /\ dotless ext'
  end.

Definition base_name_of (fileName base : string) : Prop :=
  exists ext, fileName = base +:+ "." +:+ ext /\ dotless ext.

(** Responses without usable parts: no candidates, no first candidate,
    no content, no parts, or parts that carry no inline data and no text
    other than the empty string. *)
Definition degenerate (response : GenerateContentResponse) : Prop :=
  candidates response = None
  \/ candidates response = Some []
  \/ exists c cs,
       candidates response = Some (c :: cs) /\
       (content c = None
        \/ exists ct,
             content c = Some ct /\
             (parts ct = None
              \/ exists ps,
                   parts ct = Some ps /\
                   Forall (fun q => inlineData q = None /\
                                    (text q = None \/ text q = Some "")) ps)).

(** The store in which [processFile] calls the client: the state is
    [loading], the result and the error text of an earlier session are
    cleared, the file and a fresh preview URL are retained. *)
Definition at_call (file : File) (st : Store) : Store :=
  {| env := env st;
     session := {| originalFile := Some file;
                   originalImageUrl := Some (object_url (minted st));
                   processedImageUrl := None;
                   appState := loading;
                   errorMessage := "" |};
     minted := S (minted st);
     log := log st ++
            [ Did (SetAppState loading);
              Did (SetOriginalFile (Some file));
              Did (SetProcessedImageUrl None);
              Did (SetErrorMessage "");
              Did (CreateObjectURL file);
              Did (SetOriginalImageUrl (Some (object_url (minted st)))) ] |}.

(** Programs that read the environment and wait, and touch nothing else. *)
Inductive silent {A : Type} : Prog A -> Prop :=
| silent_ret a : silent (Ret a)
| silent_throw e : silent (Throw e)
| silent_env key k : (forall v, silent (k v)) -> silent (Do (GetEnv key) k)
| silent_await {X : Type} (op : AsyncOp X) k h :
    (forall x, silent (k x)) -> (forall e, silent (h e)) ->
    silent (Await op k h).

(** Events restricted to service failures of a given kind [G]. *)
Definition admissible (G : JS.Thrown -> Prop) (ev : Event) : Prop :=
  match ev with
  | Settle _ (Rejected e) => G e
  | _ => True
  end.

Definition may_reject (G : JS.Thrown -> Prop) {X : Type} (op : AsyncOp X)
    (e : JS.Thrown) : Prop :=
  match op with
  | GenerateContent _ _ => G e
  | _ => False
  end.

(** Error texts that are not empty as long as no service failure of kind
    [G] is an [Error] with an empty message. *)
Definition worded (G : JS.Thrown -> Prop) (msg : string) : Prop :=
  (forall e, G e -> e <> JS.Error "") -> msg <> "".

(** The two ways an activation of [processFile] ends. *)
Definition ends_in_result (s s' : Session) : Prop :=
  exists v, s' = setAppState result (setProcessedImageUrl (Some v) s).

Definition ends_in_error (G : JS.Thrown -> Prop) (s s' : Session) : Prop :=
  exists msg, worded G msg /\ s' = setAppState error (setErrorMessage msg s).

(** The moves of an activation that is resumed. *)
Definition resumed (G : JS.Thrown -> Prop) (s s' : Session) : Prop :=
  s' = s \/ ends_in_result s s' \/ ends_in_error G s s'.

Definition finishing (G : JS.Thrown -> Prop) (p : Prog unit) : Prop :=
  forall st, exists st',
    run p st = (st', Done tt) /\
    (ends_in_result (session st) (session st')
     \/ ends_in_error G (session st) (session st')).

(** What is left of [processFile] once its synchronous prefix has run:
    reads of the environment and suspensions, then one of the two ends. *)
Inductive tail_ok (G : JS.Thrown -> Prop) : Prog unit -> Prop :=
| tail_finish p : finishing G p -> tail_ok G p
| tail_env key k : (forall v, tail_ok G (k v)) -> tail_ok G (Do (GetEnv key) k)
| tail_await {X : Type} (op : AsyncOp X) k h :
    (forall x, tail_ok G (k x)) ->
    (forall e, may_reject G op e -> tail_ok G (h e)) ->
    tail_ok G (Await op k h).

Definition task_ok (G : JS.Thrown -> Prop) (t : Task) : Prop :=
  match t with
  | Suspended op k h =>
      (forall x, tail_ok G (k x)) /\ (forall e, may_reject G op e -> tail_ok G (h e))
  end.

(** The shape of the machine in each of the four states. *)
Definition Inv (G : JS.Thrown -> Prop) (m : Machine) : Prop :=
  match appState (current m) with
  | initial => current m = blank /\ pending m = []
  | loading =>
      is_Some (originalFile (current m)) /\
      is_Some (originalImageUrl (current m)) /\
      processedImageUrl (current m) = None /\
      errorMessage (current m) = "" /\
      exists t, pending m = [t] /\ task_ok G t
  | result =>
      is_Some (originalFile (current m)) /\
      is_Some (originalImageUrl (current m)) /\
      is_Some (processedImageUrl (current m)) /\
      pending m = []
  | error =>
      is_Some (originalFile (current m)) /\
      is_Some (originalImageUrl (current m)) /\
      processedImageUrl (current m) = None /\
      worded G (errorMessage (current m)) /\
      pending m = []
  end.

(** An event that submits [file]: the file input changed to it, or it was
    dropped and claims an image media type. *)
Definition submits (ev : Event) (file : File) : Prop :=
  ev = FileChange (Some file)
  \/ (ev = Drop (Some file) /\ String.prefix "image/" (type file) = true).

(** Moves of the controller's state that one turn of the event loop may
    make. *)
Definition may_follow (a b : AppState) : bool :=
  match a, b with
  | initial, initial | initial, loading => true
  | loading, loading | loading, result | loading, error => true
  | result, result | result, initial => true
  | error, initial => true
  | _, _ => false
  end.

(** ** Sample data *)

Definition photo : File := {| name := "photo.png"; type := "image/png" |}.


Definition keyed : gmap string string := {[ "API_KEY" := "secret" ]}.

Definition image_part : Part :=
  {| inlineData := Some {| data := Some "QUJD"; mimeType := Some "image/png" |};
     text := None |}.

Definition text_part (t : string) : Part :=
  {| inlineData := None; text := Some t |}.

Definition reply_with (ps : list Part) : GenerateContentResponse :=
  {| candidates := Some [ {| content := Some {| parts := Some ps |} |} ] |}.

(** ** The drop zone's highlight *)

(** [classList.add(...tokens)]: each token that is not yet in the list is
    appended. *)
Definition classList_add (tokens : list string) (classList : list string)
  : list string :=
  foldl (fun acc t => if bool_decide (t ∈ acc) then acc else acc ++ [t])
        classList tokens.

(** [classList.remove(...tokens)]. *)
Definition classList_remove (tokens : list string) (classList : list string)
  : list string :=
  filter (fun c => c ∉ tokens) classList.

(** What [handleDragEnter], [handleDragLeave] and [handleDrop] do to the
    class list of [event.currentTarget]. *)
Definition handleDragEnter_classList (classList : list string) : list string :=
  classList_add ["border-indigo-400"; "bg-gray-800"] classList.

Definition handleDragLeave_classList (classList : list string) : list string :=
  classList_remove ["border-indigo-400"; "bg-gray-800"] classList.

Definition handleDrop_classList (classList : list string) : list string :=
  classList_remove ["border-indigo-400"; "bg-gray-800"] classList.


(** ** More vocabulary *)

(** The message a failure carries, in the words of the description: the
    text of an [Error], none when that text is empty or the thrown value
    is not an [Error]. *)
Definition carried_message (e : JS.Thrown) : option string :=
  match e with
  | JS.Error "" => None
  | JS.Error message => Some message
  | JS.Other _ => None
  end.

(** [s] does not contain the character [c]. *)
Fixpoint lacks (c : ascii) (s : string) : Prop :=
  match s with
  | EmptyString => True
  | String a s' => a <> c /\ lacks c s'
  end.

(** The events that come from the user, not from a settled operation. *)
Definition user_event (ev : Event) : Prop :=
  match ev with
  | Settle _ _ => False
  | _ => True
  end.

(** The request that the client sends for [file] when the file reader
    ended with [reader_result]. *)
Definition request_for (file : File) (reader_result : option string)
  : GenerateContentParameters :=
  {| model := "gemini-2.5-flash-image-preview";
     contents :=
       {| parts := Some
            [ {| inlineData :=
                   Some {| data := match reader_result with
                                   | Some s => JS.split "," s !! 1%nat
                                   | None => Some ""
                                   end;
                           mimeType := Some (type file) |};
                 text := None |};
              {| inlineData := None; text := Some instruction |} ] |};
     config := {| responseModalities := [IMAGE; TEXT] |} |}.

(** What [complete] makes of a program that has run up to its first
    suspension point. *)
Definition continue {A : Type} (s : Store * Status A) (rs : list Reply)
  : option (Store * (JS.Thrown + A)) :=
  match s with
  | (st, Done a) => match rs with [] => Some (st, inr a) | _ => None end
  | (st, Failed e) => match rs with [] => Some (st, inl e) | _ => None end
  | (st, Parked op k h) =>
      match rs with
      | [] => None
      | r :: rs' =>
          match settle op r with
          | Some (inr x) => complete (k x) st rs'
          | Some (inl e) => complete (h e) st rs'
          | None => None
          end
      end
  end.

(** The event loop, settling the one activation of [p] with the replies
    [rs] one turn at a time, ends where [complete] ends. *)
Definition agrees (p : Prog unit) : Prop :=
  forall st rs st2 ds,
    complete p st rs = Some (st2, inr tt) ->
    exec (schedule p {| store := st; pending := []; downloads := ds |})
         (map (Settle 0) rs)
    = Some {| store := st2; pending := []; downloads := ds |}.

(** * Properties *)

(** ** Strings and lists *)

Lemma append_cons (c : ascii) (s t : string) :
  String c s +:+ t = String c (s +:+ t).
Proof. reflexivity. Qed.

Lemma append_empty_r (s : string) : s +:+ "" = s.
Proof.
  induction s as [|c s IH]; [reflexivity|].
  now rewrite append_cons, IH.
Qed.

Lemma embeds_suffix (pre t : string) : embeds t (pre +:+ t).
Proof. exists pre, "". now rewrite append_empty_r. Qed.

Lemma find_first {A : Type} (pred : A -> bool) (l1 l2 : list A) (p : A) :
  Forall (fun q => pred q = false) l1 -> pred p = true ->
  List.find pred (l1 ++ p :: l2) = Some p.
Proof.
  induction 1 as [|q l1 Hq _ IH]; intros Hp; simpl.
  - now rewrite Hp.
  - rewrite Hq. now apply IH.
Qed.

Lemma find_nothing {A : Type} (pred : A -> bool) (l : list A) :
  Forall (fun q => pred q = false) l -> List.find pred l = None.
Proof.
  induction 1 as [|q l Hq _ IH]; simpl; [reflexivity | now rewrite Hq].
Qed.

Lemma find_part_parts (pred : Part -> bool) (r : GenerateContentResponse) :
  find_part pred r = List.find pred (response_parts r).
Proof.
  unfold find_part, response_parts.
  destruct (candidates r) as [cs|]; simpl; [|reflexivity].
  destruct (cs !! 0%nat) as [c|]; simpl; [|reflexivity].
  destruct (content c) as [ct|]; simpl; [|reflexivity].
  destruct (parts ct); reflexivity.
Qed.

(** ** The client *)

(** What the client makes of a response. *)
Lemma removeBackground_responded (file : File) (st : Store)
    (v : option string) (response : GenerateContentResponse) :
  JS.truthy (env st !! "API_KEY") = true ->
  exists st',
    complete (removeBackground file) st [Loaded v; Ticked; Responded response]
    = Some (st',
        match find_part (fun part => bool_decide (is_Some (inlineData part)))
                response ≫= inlineData with
        | Some blob => inr (data blob)
        | None =>
            let found :=
              find_part (fun part => JS.truthy (text part)) response ≫= text in
            if JS.truthy found
            then inl (JS.Error (text_response_prefix +:+ JS.interpolate found))
            else inl (JS.Error no_image_message)
        end).
Proof.
  intros Hkey. unfold removeBackground. cbn.
  rewrite Hkey. cbn.
  destruct (find_part _ response ≫= inlineData) as [blob|]; cbn.
  - eexists; reflexivity.
  - destruct (JS.truthy (_ ≫= text)); cbn; eexists; reflexivity.
Qed.

(** C1. Whatever the service responds, the client scans the parts of the
    response: the first part with inline data makes it resolve with that
    part's data; without such a part, the first part with a text makes it
    reject with an error whose message is a fixed prefix followed by that
    text, so the message embeds the text verbatim; with neither, it
    rejects with the generic message that no image was returned. *)
Theorem removeBackground_response_handling (file : File) (st : Store)
    (v : option string) (response : GenerateContentResponse) :
  JS.truthy (env st !! "API_KEY") = true ->
  exists st' outcome,
    complete (removeBackground file) st [Loaded v; Ticked; Responded response]
    = Some (st', outcome) /\
    (forall l1 p l2 blob,
        response_parts response = l1 ++ p :: l2 ->
        Forall (fun q => inlineData q = None) l1 ->
        inlineData p = Some blob ->
        outcome = inr (data blob)) /\
    (Forall (fun q => inlineData q = None) (response_parts response) ->
     forall l1 p l2 t,
        response_parts response = l1 ++ p :: l2 ->
        Forall (fun q => JS.truthy (text q) = false) l1 ->
        text p = Some t -> t <> "" ->
        outcome = inl (JS.Error (text_response_prefix +:+ t)) /\
        embeds t (text_response_prefix +:+ t)) /\
    (Forall (fun q => inlineData q = None) (response_parts response) ->
     Exists (fun q => is_Some (text q)) (response_parts response) ->
     exists p t msg,
        p ∈ response_parts response /\ text p = Some t /\
        outcome = inl (JS.Error msg) /\ embeds t msg) /\
    (Forall (fun q => inlineData q = None) (response_parts response) ->
     Forall (fun q => text q = None) (response_parts response) ->
     outcome = inl (JS.Error no_image_message)).
Proof.
  intros Hkey.
  destruct (removeBackground_responded file st v response Hkey) as [st' Hrun].
  exists st'. eexists. split; [exact Hrun|].
  rewrite !find_part_parts.
  set (ps := response_parts response).
  set (has_image := fun part : Part => bool_decide (is_Some (inlineData part))).
  set (has_text := fun part : Part => JS.truthy (text part)).
  assert (Hnone : Forall (fun q => inlineData q = None) ps ->
                  List.find has_image ps = None).
  { intros Hno. apply find_nothing.
    eapply Forall_impl; [exact Hno|]. intros q Hq. unfold has_image.
    rewrite Hq. reflexivity. }
  assert (Htext : forall l1 p l2 t,
             ps = l1 ++ p :: l2 ->
             Forall (fun q => JS.truthy (text q) = false) l1 ->
             text p = Some t -> t <> "" ->
             List.find has_text ps = Some p).
  { intros l1 p l2 t -> Hl1 Hp Ht. apply find_first; [exact Hl1|].
    unfold has_text. rewrite Hp. destruct t; [congruence | reflexivity]. }
  repeat split.
  - intros l1 p l2 blob Hps Hl1 Hp.
    rewrite Hps, (find_first has_image l1 l2 p).
    + simpl. rewrite Hp. reflexivity.
    + eapply Forall_impl; [exact Hl1|]. intros q Hq. unfold has_image.
      rewrite Hq. reflexivity.
    + unfold has_image. rewrite Hp. reflexivity.
  - rewrite (Hnone H). simpl.
    rewrite (Htext _ _ _ _ H0 H1 H2 H3). simpl. rewrite H2.
    destruct t; [congruence | reflexivity].
  - apply embeds_suffix.
  - intros Hno Hsome. rewrite (Hnone Hno). simpl.
    destruct (List.find has_text ps) as [p|] eqn:Hfind; simpl.
    + apply find_some in Hfind as [Hin Hp]. unfold has_text in Hp.
      destruct (text p) as [[|c t]|] eqn:Ht; try discriminate. simpl.
      exists p, (String c t). eexists. repeat split.
      * now apply list_elem_of_In.
      * exact Ht.
      * apply embeds_suffix.
    + apply Exists_exists in Hsome as (p & Hin & [t Ht]).
      exists p, t. eexists. repeat split; [exact Hin | exact Ht |].
      pose proof (find_none _ _ Hfind p (proj1 (list_elem_of_In _ _) Hin)) as Hp.
      unfold has_text in Hp. rewrite Ht in Hp.
      destruct t; [|discriminate].
      exists "", no_image_message. reflexivity.
  - intros Hno Htxt. rewrite (Hnone Hno). simpl.
    rewrite (find_nothing has_text ps); [reflexivity|].
    eapply Forall_impl; [exact Htxt|]. intros q Hq. unfold has_text.
    rewrite Hq. reflexivity.
Qed.

Lemma degenerate_parts (response : GenerateContentResponse) :
  degenerate response ->
  Forall (fun q => inlineData q = None /\ JS.truthy (text q) = false)
         (response_parts response).
Proof.
  unfold degenerate, response_parts.
  intros [H | [H | (c & cs & H & Hc)]]; rewrite H; simpl; try constructor.
  destruct Hc as [Hc | (ct & Hc & Hct)]; rewrite Hc; simpl; try constructor.
  destruct Hct as [Hct | (ps & Hct & Hps)]; rewrite Hct; simpl; try constructor.
  eapply Forall_impl; [exact Hps|].
  intros q [Hq [Ht | Ht]]; rewrite Ht; auto.
Qed.

(** C10. The response handling is total, and a response with no
    candidates, an empty candidate list, a first candidate without content,
    a content without parts, or parts that carry neither inline data nor a
    text other than the empty string, makes the client reject with the
    generic "Failed to process the image" error: an empty text counts as
    no text. *)
Theorem removeBackground_degenerate_response (file : File) (st : Store)
    (v : option string) (response : GenerateContentResponse) :
  JS.truthy (env st !! "API_KEY") = true ->
  (exists st' outcome,
      complete (removeBackground file) st [Loaded v; Ticked; Responded response]
      = Some (st', outcome)) /\
  (degenerate response ->
   exists st',
      complete (removeBackground file) st [Loaded v; Ticked; Responded response]
      = Some (st', inl (JS.Error no_image_message))) /\
  embeds "Failed to process the image" no_image_message.
Proof.
  intros Hkey.
  destruct (removeBackground_responded file st v response Hkey) as [st' Hrun].
  split; [eauto|]. split.
  - intros Hdeg. exists st'. rewrite Hrun. f_equal. f_equal.
    apply degenerate_parts in Hdeg.
    rewrite !find_part_parts.
    rewrite !find_nothing; [reflexivity | |].
    + eapply Forall_impl; [exact Hdeg|]. now intros q [_ Hq].
    + eapply Forall_impl; [exact Hdeg|]. intros q [Hq _]. now rewrite Hq.
  - exists "", ". The API did not return an image.". reflexivity.
Qed.

(** C2. Without an [API_KEY] in the process environment, every call of
    the client fails at once with an error whose message names
    [API_KEY]: the call has read the environment and nothing else, so no
    request was started. *)
Theorem removeBackground_missing_credential (file : File) (st : Store) :
  env st !! "API_KEY" = None ->
  run (removeBackground file) st
  = (record (Did (GetEnv "API_KEY")) st, Failed (JS.Error missing_key_message)) /\
  complete (removeBackground file) st []
  = Some (record (Did (GetEnv "API_KEY")) st, inl (JS.Error missing_key_message)) /\
  log (record (Did (GetEnv "API_KEY")) st) = log st ++ [Did (GetEnv "API_KEY")] /\
  embeds "API_KEY" missing_key_message.
Proof.
  intros Hkey. unfold removeBackground. cbn. rewrite Hkey. cbn.
  repeat split.
  exists "", " environment variable is not set.". reflexivity.
Qed.

(** ** The controller *)

Lemma store_eq (st st' : Store) :
  env st = env st' -> session st = session st' -> minted st = minted st' ->
  log st = log st' -> st = st'.
Proof. destruct st, st'; simpl; intros; subst; reflexivity. Qed.

(** [await f(..)] inside [try]: when the callee has settled, the caller
    goes on one microtask later, in the [try] block or in the handler. *)
Lemma complete_await_call {A B : Type} (p : Prog A) (k : A -> Prog B)
    (handler : JS.Thrown -> Prog B) (rs' : list Reply) :
  forall st rs st1 o,
    complete p st rs = Some (st1, o) ->
    complete (try_catch (bind (await_call p) k) handler) st (rs ++ Ticked :: rs')
    = complete (match o with
                | inr a => try_catch (k a) handler
                | inl e => handler e
                end) (record (Started Microtask) st1) rs'.
Proof.
  induction p as [a|e|X op k0 IH|X op k0 IHk h0 IHh]; intros st rs st1 o Hp.
  - destruct rs; [|discriminate]. injection Hp as <- <-. reflexivity.
  - destruct rs; [|discriminate]. injection Hp as <- <-. reflexivity.
  - simpl in *. destruct (effect op (record (Did op) st)) as [x st'].
    now apply IH.
  - destruct rs as [|r rs]; [discriminate|]. simpl in *.
    destruct (settle op r) as [[e|x]|]; [now apply IHh | now apply IHk | discriminate].
Qed.

Lemma silent_complete {A : Type} (p : Prog A) :
  silent p ->
  forall st rs st1 o,
    complete p st rs = Some (st1, o) ->
    session st1 = session st /\ env st1 = env st /\ minted st1 = minted st.
Proof.
  induction 1 as [a|e|key k _ IH|X op k h _ IHk _ IHh]; intros st rs st1 o Hp.
  - destruct rs; [|discriminate]. injection Hp as <- <-. auto.
  - destruct rs; [|discriminate]. injection Hp as <- <-. auto.
  - simpl in Hp. now apply IH in Hp.
  - destruct rs as [|r rs]; [discriminate|]. simpl in Hp.
    destruct (settle op r) as [[e|x]|]; [| |discriminate].
    + now apply IHh in Hp.
    + now apply IHk in Hp.
Qed.

Lemma removeBackground_silent (file : File) : silent (removeBackground file).
Proof.
  unfold removeBackground. cbn.
  apply silent_env; intros key. destruct (JS.truthy key); cbn.
  - apply silent_env; intros key'. cbn.
    apply silent_await; [|intros; apply silent_await; intros; constructor].
    intros v. cbn. apply silent_await; [|intros; constructor].
    intros []. cbn. apply silent_await; [|intros; constructor].
    intros response. cbn.
    destruct (find_part _ response ≫= inlineData); [constructor|].
    destruct (JS.truthy (_ ≫= text)); constructor.
  - constructor.
Qed.

(** The text that the [catch] block of [processFile] shows for a thrown
    value, and the data URL that its [try] block builds. *)
Lemma processFile_settles (file : File) (st st1 : Store) (rs : list Reply)
    (o : JS.Thrown + option string) :
  complete (removeBackground file) (at_call file st) rs = Some (st1, o) ->
  exists st2,
    complete (processFile file) st (rs ++ [Ticked]) = Some (st2, inr tt) /\
    session st2 =
      match o with
      | inr resultBase64 =>
          setAppState result
            (setProcessedImageUrl
               (Some ("data:image/png;base64," +:+ JS.interpolate resultBase64))
               (session (at_call file st)))
      | inl (JS.Error message) =>
          setAppState error (setErrorMessage message (session (at_call file st)))
      | inl (JS.Other _) =>
          setAppState error
            (setErrorMessage unknown_error_message (session (at_call file st)))
      end.
Proof.
  intros Hp. unfold processFile. cbn.
  match goal with
  | |- context [complete _ ?s (rs ++ [Ticked])] =>
      replace s with (at_call file st)
        by (apply store_eq; cbn; rewrite <- ?app_assoc; reflexivity)
  end.
  destruct o as [[message|shown]|resultBase64];
    (eexists; split;
     [ etransitivity;
       [ exact (complete_await_call _ _ _ [] _ _ _ _ Hp) | cbn; reflexivity ]
     | cbn;
       rewrite (proj1 (silent_complete _ (removeBackground_silent file) _ _ _ _ Hp));
       reflexivity ]).
Qed.

(** C6, as the code has it.  In whatever way the call of the client
    rejects, [processFile] ends in the state [error]; the error text is
    the message of the thrown value when that is an [Error], also when
    the message is empty, and the generic fallback when the thrown value
    is not an [Error]. *)
Theorem processFile_rejection (file : File) (st st1 : Store) (rs : list Reply)
    (e : JS.Thrown) :
  complete (removeBackground file) (at_call file st) rs = Some (st1, inl e) ->
  exists st2,
    complete (processFile file) st (rs ++ [Ticked]) = Some (st2, inr tt) /\
    appState (session st2) = error /\
    errorMessage (session st2) =
      match e with
      | JS.Error message => message
      | JS.Other _ => unknown_error_message
      end.
Proof.
  intros Hp. destruct (processFile_settles _ _ _ _ _ Hp) as (st2 & Hrun & Hs).
  exists st2. split; [exact Hrun|]. rewrite Hs. destruct e; split; reflexivity.
Qed.

(** ** Activations of [processFile] in the event loop *)

(** C6 as it is worded fails: an [Error] with an empty message carries
    no message, yet the error text is that empty message and not the
    fallback. *)
Lemma fallback_skips_empty_message :
  ~ (forall file st st1 rs e,
        complete (removeBackground file) (at_call file st) rs
        = Some (st1, inl e) ->
        exists st2,
          complete (processFile file) st (rs ++ [Ticked]) = Some (st2, inr tt) /\
          appState (session st2) = error /\
          errorMessage (session st2)
          = default unknown_error_message (carried_message e)).
Proof.
  intros Hclaim.
  edestruct Hclaim
    with (file := photo) (st := store (boot keyed))
         (rs := [Loaded None; Ticked; Rejected (JS.Error "")])
         (e := JS.Error "")
    as (st2 & Hrun & _ & Hmsg).
  - vm_compute. reflexivity.
  - vm_compute in Hrun. injection Hrun as <-. vm_compute in Hmsg.
    discriminate Hmsg.
Qed.

Section Activations.

Variable G : JS.Thrown -> Prop.

Lemma tail_result (resultBase64 : option string) :
  tail_ok G
    (Do (SetProcessedImageUrl
           (Some ("data:image/png;base64," +:+ JS.interpolate resultBase64)))
        (fun _ => perform (SetAppState result))).
Proof.
  apply tail_finish. intros st. eexists. split; [reflexivity|].
  left. eexists. reflexivity.
Qed.

Lemma tail_error (err : JS.Thrown) :
  worded G (match err with
            | JS.Error message => message
            | JS.Other _ => unknown_error_message
            end) ->
  tail_ok G
    (Do (ConsoleError "Error processing image:" err)
        (fun _ =>
           Do (SetErrorMessage
                 (match err with
                  | JS.Error message => message
                  | JS.Other _ => unknown_error_message
                  end))
              (fun _ => perform (SetAppState error)))).
Proof.
  intros Hw. apply tail_finish. intros st. eexists. split; [reflexivity|].
  right. eexists. split; [exact Hw | reflexivity].
Qed.

Lemma worded_rejection (e : JS.Thrown) :
  G e ->
  worded G (match e with
            | JS.Error message => message
            | JS.Other _ => unknown_error_message
            end).
Proof.
  intros He HG. destruct e as [message|shown]; [|discriminate].
  intros ->. now apply (HG _ He).
Qed.

Lemma worded_own (c : ascii) (s t : string) : worded G (String c s +:+ t).
Proof. intros _. rewrite append_cons. discriminate. Qed.

Lemma worded_constant (msg : string) : msg <> "" -> worded G msg.
Proof. intros Hmsg _. exact Hmsg. Qed.

Ltac tail_ok_step :=
  match goal with
  | |- task_ok _ _ => split
  | |- _ /\ _ => split
  | |- forall _, _ => intro
  | H : False |- _ => destruct H
  | H : may_reject _ _ _ |- _ => progress cbn in H
  | |- tail_ok _ (Await _ _ _) => apply tail_await
  | |- tail_ok _ (Do (SetProcessedImageUrl _) _) => apply tail_result
  | |- tail_ok _ (Do (ConsoleError _ _) _) => apply tail_error
  | |- tail_ok _ (try_catch (bind (await_call (match ?x with _ => _ end)) _) _) =>
      destruct x
  | |- worded _ (match ?e with _ => _ end) => apply worded_rejection; assumption
  | |- worded _ _ =>
      first [ apply (worded_own "A") | apply worded_constant; discriminate ]
  end.

(** Where an activation of [processFile] parks first, and what is left
    of it there. *)
Lemma processFile_parks (file : File) (st : Store) :
  exists t rest,
    park (snd (run (processFile file) st)) = [t] /\
    task_ok G t /\
    session (fst (run (processFile file) st)) = session (at_call file st) /\
    env (fst (run (processFile file) st)) = env st /\
    log (fst (run (processFile file) st))
    = log (at_call file st) ++ Did (GetEnv "API_KEY") :: rest.
Proof.
  unfold processFile, removeBackground. cbn.
  destruct (JS.truthy (env st !! "API_KEY")) eqn:Hkey; cbn.
  - eexists. eexists. split; [reflexivity|]. split.
    + repeat first [ progress cbn | tail_ok_step ].
    + repeat split. cbn. rewrite <- !app_assoc. reflexivity.
  - eexists. eexists. split; [reflexivity|]. split.
    + repeat first [ progress cbn | tail_ok_step ].
    + repeat split. cbn. rewrite <- !app_assoc. reflexivity.
Qed.

(** Running what is left of an activation: it parks again and leaves
    the session alone, or it ends in [result] or in [error]. *)
Lemma run_tail_ok (p : Prog unit) :
  tail_ok G p ->
  forall st,
    Forall (task_ok G) (park (snd (run p st))) /\
    match snd (run p st) with
    | Parked _ _ _ => session (fst (run p st)) = session st
    | Done _ =>
        ends_in_result (session st) (session (fst (run p st)))
        \/ ends_in_error G (session st) (session (fst (run p st)))
    | Failed _ => False
    end.
Proof.
  induction 1 as [p Hp|key k _ IH|X op k h Hk _ Hh _]; intros st.
  - destruct (Hp st) as (st' & -> & Hend). cbn. auto.
  - exact (IH (env st !! key) (record (Did (GetEnv key)) st)).
  - cbn. repeat split; auto. constructor; [|constructor]. split; assumption.
Qed.

Lemma schedule_store (p : Prog unit) (m : Machine) :
  store (schedule p m) = fst (run p (store m)).
Proof. unfold schedule. now destruct (run p (store m)). Qed.

Lemma schedule_pending (p : Prog unit) (m : Machine) :
  pending (schedule p m) = pending m ++ park (snd (run p (store m))).
Proof. unfold schedule. now destruct (run p (store m)). Qed.

Lemma cleanup_current (before : option string) (m : Machine) :
  current (cleanup before m) = current m /\
  pending (cleanup before m) = pending m.
Proof.
  unfold cleanup. destruct before as [u|]; [|auto].
  destruct (bool_decide _); [auto|]. destruct (JS.truthy _); auto.
Qed.

Lemma Inv_ext (m m' : Machine) :
  current m' = current m -> pending m' = pending m -> Inv G m -> Inv G m'.
Proof. unfold Inv. intros -> ->. auto. Qed.

Lemma resume_tail_ok (t : Task) (r : Reply) (p : Prog unit) (i : nat) :
  task_ok G t -> admissible G (Settle i r) -> resume t r = Some p ->
  tail_ok G p.
Proof.
  destruct t as [X op k h]. intros [Hk Hh] Hr. unfold resume.
  destruct (settle op r) as [[e|x]|] eqn:Hs; intros [= <-]; [|apply Hk].
  apply Hh. destruct op; destruct r; try discriminate.
  injection Hs as <-. exact Hr.
Qed.

(** A submitted file takes the machine from [initial] to [loading]. *)
Lemma submit_Inv (file : File) (m : Machine) :
  current m = blank -> pending m = [] ->
  Inv G (schedule (processFile file) m) /\
  appState (current (schedule (processFile file) m)) = loading.
Proof.
  intros Hs Hp.
  destruct (processFile_parks file (store m)) as (t & rest & Ht & Hok & Hses & _).
  unfold Inv, current. rewrite schedule_store, schedule_pending, Hses, Ht, Hp.
  cbn. repeat split; eauto.
Qed.

Lemma idle_Inv (m : Machine) :
  Inv G m -> Inv G (schedule (Ret tt) m).
Proof. apply Inv_ext; [reflexivity|]. cbn. apply app_nil_r. Qed.

Lemma reset_blank (url : option string) (st : Store) :
  snd (run (handleReset url) st) = Done tt /\
  session (fst (run (handleReset url) st)) = blank.
Proof.
  unfold handleReset.
  destruct url as [u|]; [destruct (JS.truthy (Some u)) eqn:Hu; cbn; rewrite ?Hu|];
    cbn; split; reflexivity.
Qed.

(** One turn of the event loop keeps the shape of the machine. *)
Lemma react_Inv (m m' : Machine) (ev : Event) :
  Inv G m -> admissible G ev -> react m ev = Some m' ->
  Inv G m' /\
  may_follow (appState (current m)) (appState (current m')) = true /\
  match ev with
  | Settle _ _ =>
      appState (current m) = loading /\ resumed G (current m) (current m')
  | _ => True
  end.
Proof.
  intros HI Hadm Hr. destruct ev as [file|file| | |i r]; unfold react in Hr.
  - unfold renderContent in Hr.
    destruct (appState (current m)) eqn:Ha; try discriminate.
    injection Hr as <-. unfold Inv in HI. rewrite Ha in HI.
    destruct HI as [Hs Hp]. destruct file as [f|]; cbn [handleFileChange].
    + destruct (submit_Inv f m Hs Hp) as [HI' ->]. auto.
    + split; [|split; [|exact I]].
      * apply idle_Inv. unfold Inv. rewrite Ha. auto.
      * change (current (schedule (Ret tt) m)) with (current m).
        rewrite Ha. reflexivity.
  - unfold renderContent in Hr.
    destruct (appState (current m)) eqn:Ha; try discriminate.
    injection Hr as <-. unfold Inv in HI. rewrite Ha in HI.
    destruct HI as [Hs Hp].
    assert (Hidle : Inv G (schedule (Ret tt) m) /\
                    may_follow initial (appState (current (schedule (Ret tt) m))) = true /\ True).
    { split; [|split; [|exact I]].
      - apply idle_Inv. unfold Inv. rewrite Ha. auto.
      - change (current (schedule (Ret tt) m)) with (current m).
        rewrite Ha. reflexivity. }
    destruct file as [f|]; cbn [handleDrop task]; [|exact Hidle].
    destruct (String.prefix "image/" (type f)); [|exact Hidle].
    destruct (submit_Inv f m Hs Hp) as [HI' ->]. auto.
  - unfold renderContent in Hr. unfold Inv, current in *.
    destruct (reset_blank (originalImageUrl (session (store m))) (store m))
      as [Hd Hb].
    destruct (appState (session (store m))) eqn:Ha; try discriminate;
      injection Hr as <-;
      rewrite schedule_store, schedule_pending, Hd, Hb, app_nil_r; cbn;
      repeat split; tauto.
  - unfold renderContent in Hr.
    destruct (appState (current m)) eqn:Ha; try discriminate.
    injection Hr as <-. unfold Inv in *. unfold current in *. cbn.
    rewrite Ha in *. auto.
  - destruct (pending m !! i) as [t|] eqn:Hi; [|discriminate]. cbn in Hr.
    destruct (resume t r) as [p|] eqn:Hres; [|discriminate]. cbn in Hr.
    injection Hr as <-.
    unfold Inv in HI.
    destruct (appState (current m)) eqn:Ha;
      [ destruct HI as (_ & HI); rewrite HI in Hi; discriminate
      |
      | destruct HI as (_ & _ & _ & HI); rewrite HI in Hi; discriminate
      | destruct HI as (_ & _ & _ & _ & HI); rewrite HI in Hi; discriminate ].
    destruct HI as (Hf & Hu & Hproc & Hmsg & t0 & Hp & Hok).
    rewrite Hp in Hi. destruct i as [|i]; [|discriminate].
    injection Hi as ->.
    pose proof (resume_tail_ok _ _ _ _ Hok Hadm Hres) as Htail.
    destruct (run_tail_ok p Htail (store m)) as [Hparks Hrun].
    unfold Inv, current.
    rewrite schedule_store, schedule_pending. cbn [store pending]. rewrite Hp.
    cbn [delete list_delete app].
    change (session (store m)) with (current m).
    destruct (snd (run p (store m))) as [[]|e|X op k h] eqn:Hst; [| destruct Hrun |].
    + destruct Hrun as [(v & Hv) | (msg & Hw & Hv)]; rewrite Hv; cbn;
        rewrite ?Hproc; repeat split; eauto.
      * right. left. exists v. reflexivity.
      * right. right. exists msg. split; [exact Hw | reflexivity].
    + rewrite Hrun. fold (current m). rewrite Ha. cbn. repeat split; eauto.
      * eexists. split; [reflexivity|]. now inversion Hparks.
      * left. reflexivity.
Qed.

Lemma dispatch_Inv (m m' : Machine) (ev : Event) :
  Inv G m -> admissible G ev -> dispatch m ev = Some m' ->
  Inv G m' /\
  may_follow (appState (current m)) (appState (current m')) = true /\
  match ev with
  | Settle _ _ =>
      appState (current m) = loading /\ resumed G (current m) (current m')
  | _ => True
  end.
Proof.
  intros HI Hadm. unfold dispatch.
  destruct (react m ev) as [m0|] eqn:Hr; [|discriminate].
  intros [= <-].
  destruct (react_Inv _ _ _ HI Hadm Hr) as (HI0 & Hmove & Hev).
  destruct (cleanup_current (originalImageUrl (current m)) m0) as [Hc Hp].
  rewrite Hc. split; [|auto].
  eapply Inv_ext; [exact Hc | exact Hp | exact HI0].
Qed.

Lemma boot_Inv (e : gmap string string) : Inv G (boot e).
Proof. split; reflexivity. Qed.

Lemma exec_Inv (evs : list Event) :
  forall m m',
    Inv G m -> Forall (admissible G) evs -> exec m evs = Some m' -> Inv G m'.
Proof.
  induction evs as [|ev evs IH]; intros m m' HI Hadm Hex; cbn in Hex.
  - now injection Hex as <-.
  - destruct (dispatch m ev) as [m1|] eqn:Hd; [|discriminate]. cbn in Hex.
    inversion Hadm as [|? ? Hev Hevs]; subst.
    apply (IH m1 m'); [|exact Hevs | exact Hex].
    now destruct (dispatch_Inv _ _ _ HI Hev Hd).
Qed.

End Activations.

Lemma admissible_any (evs : list Event) :
  Forall (admissible (fun _ => True)) evs.
Proof.
  induction evs as [|ev evs IH]; constructor; [|exact IH].
  destruct ev as [| | | |i r]; cbn; auto. destruct r; exact I.
Qed.

Lemma reachable_Inv (e : gmap string string) (m : Machine) :
  reachable e m -> Inv (fun _ => True) m.
Proof.
  intros [evs Hex].
  exact (exec_Inv _ evs _ _ (boot_Inv _ e) (admissible_any evs) Hex).
Qed.

(** ** The claims about the controller *)

(** C7. Submitting a file runs [processFile] up to its first suspension
    point, where the activation is parked with the client's call still
    unsettled: by then the state is [loading], the processed image and the
    error text of an earlier session are cleared, and the file and its
    preview URL are retained; in the log these writes precede the first
    action of the client, its read of [API_KEY]. *)
Theorem processFile_submission (file : File) (st : Store) :
  exists t rest,
    park (snd (run (processFile file) st)) = [t] /\
    appState (session (fst (run (processFile file) st))) = loading /\
    processedImageUrl (session (fst (run (processFile file) st))) = None /\
    errorMessage (session (fst (run (processFile file) st))) = "" /\
    originalFile (session (fst (run (processFile file) st))) = Some file /\
    originalImageUrl (session (fst (run (processFile file) st)))
    = Some (object_url (minted st)) /\
    log (fst (run (processFile file) st))
    = log st ++
      [ Did (SetAppState loading);
        Did (SetOriginalFile (Some file));
        Did (SetProcessedImageUrl None);
        Did (SetErrorMessage "");
        Did (CreateObjectURL file);
        Did (SetOriginalImageUrl (Some (object_url (minted st))));
        Did (GetEnv "API_KEY") ] ++ rest.
Proof.
  destruct (processFile_parks (fun _ => True) file st)
    as (t & rest & Ht & _ & Hs & _ & Hlog).
  exists t, rest. rewrite Hs, Hlog.
  repeat split; [exact Ht|].
  unfold at_call. cbn [log]. rewrite <- app_assoc. reflexivity.
Qed.

(** C5. From any state of the session, and whatever preview URL the
    callback has captured, [handleReset] runs to its end without
    suspending and leaves the session blank: no file, no preview URL, no
    processed image, an empty error text, the state [initial]; so does the
    turn of the event loop that runs it. *)
Theorem handleReset_clears (url : option string) (st : Store) (m : Machine) :
  snd (run (handleReset url) st) = Done tt /\
  session (fst (run (handleReset url) st))
  = {| originalFile := None;
       originalImageUrl := None;
       processedImageUrl := None;
       appState := initial;
       errorMessage := "" |} /\
  current (cleanup (originalImageUrl (current m))
             (schedule (handleReset (originalImageUrl (current m))) m))
  = blank.
Proof.
  destruct (reset_blank url st) as [Hd Hb]. repeat split; [exact Hd | exact Hb |].
  destruct (cleanup_current (originalImageUrl (current m))
              (schedule (handleReset (originalImageUrl (current m))) m)) as [-> _].
  unfold current at 1. rewrite schedule_store.
  apply reset_blank.
Qed.

(** C3. In every reachable machine, a turn of the event loop moves the
    state only along initial -> loading -> result or error (and back to
    initial by a reset): never from initial to result or error.  A file
    submitted in the state [initial] puts the machine in [loading], and the
    write of [loading] comes before the first action of the client.  Once
    the client's call has settled, [processFile] ends in [result] or in
    [error]. *)
Theorem submission_passes_through_loading (e : gmap string string)
    (m : Machine) :
  reachable e m ->
  (forall ev m',
      dispatch m ev = Some m' ->
      may_follow (appState (current m)) (appState (current m')) = true) /\
  (forall ev file,
      appState (current m) = initial -> submits ev file ->
      exists m' rest,
        dispatch m ev = Some m' /\
        appState (current m') = loading /\
        log (store m')
        = log (store m) ++
          [ Did (SetAppState loading);
            Did (SetOriginalFile (Some file));
            Did (SetProcessedImageUrl None);
            Did (SetErrorMessage "");
            Did (CreateObjectURL file);
            Did (SetOriginalImageUrl (Some (object_url (minted (store m)))));
            Did (GetEnv "API_KEY") ] ++ rest) /\
  (forall file st rs st1 o,
      complete (removeBackground file) (at_call file st) rs = Some (st1, o) ->
      exists st2,
        complete (processFile file) st (rs ++ [Ticked]) = Some (st2, inr tt) /\
        (appState (session st2) = result \/ appState (session st2) = error)).
Proof.
  intros Hreach. pose proof (reachable_Inv _ _ Hreach) as HI.
  split; [|split].
  - intros ev m' Hd.
    refine (proj1 (proj2 (dispatch_Inv (fun _ => True) _ _ ev HI _ Hd))).
    destruct ev as [| | | |i r]; cbn; auto. destruct r; exact I.
  - intros ev file Ha Hsub. unfold Inv in HI. rewrite Ha in HI.
    destruct HI as [Hblank Hpend].
    destruct (processFile_parks (fun _ => True) file (store m))
      as (t & rest & _ & _ & Hs & _ & Hlog).
    exists (schedule (processFile file) m), rest.
    assert (Hd : dispatch m ev = Some (schedule (processFile file) m)).
    { unfold dispatch, react, renderContent. rewrite Ha, Hblank.
      destruct Hsub as [-> | [-> Himg]]; cbn [handleFileChange handleDrop task];
        rewrite ?Himg; reflexivity. }
    split; [exact Hd|]. unfold current. rewrite schedule_store, Hs, Hlog.
    split; [reflexivity|].
    unfold at_call. cbn [log]. rewrite <- app_assoc. reflexivity.
  - intros file st rs st1 o Hcall.
    destruct (processFile_settles _ _ _ _ _ Hcall) as (st2 & Hrun & Hs).
    exists st2. split; [exact Hrun|]. rewrite Hs.
    destruct o as [[message|shown]|v]; cbn; auto.
Qed.

(** C9. The turn that takes a reachable machine into the state [error]
    starts in [loading] and leaves the file, the preview URL and the
    processed image as they were: only the state and the error text
    change. *)
Theorem rejection_keeps_source (e : gmap string string) (m m' : Machine)
    (ev : Event) :
  reachable e m ->
  dispatch m ev = Some m' ->
  appState (current m') = error ->
  appState (current m) = loading /\
  originalFile (current m') = originalFile (current m) /\
  originalImageUrl (current m') = originalImageUrl (current m) /\
  processedImageUrl (current m') = processedImageUrl (current m) /\
  processedImageUrl (current m') = None.
Proof.
  intros Hreach Hd He. pose proof (reachable_Inv _ _ Hreach) as HI.
  assert (Hadm : admissible (fun _ => True) ev).
  { destruct ev as [| | | |i r]; cbn; auto. destruct r; exact I. }
  destruct (dispatch_Inv _ _ _ ev HI Hadm Hd) as (HI' & Hmove & Hev).
  rewrite He in Hmove.
  destruct (appState (current m)) eqn:Ha; try discriminate.
  split; [reflexivity|].
  destruct ev as [file|file| | |i r];
    try (unfold dispatch, react, renderContent in Hd; rewrite Ha in Hd;
         discriminate).
  destruct Hev as [_ [Hsame | [(v & Hv) | (msg & _ & Hv)]]].
  - rewrite Hsame, Ha in He. discriminate.
  - rewrite Hv in He. discriminate.
  - unfold Inv in HI. rewrite Ha in HI. destruct HI as (_ & _ & Hproc & _).
    rewrite Hv. cbn. auto.
Qed.

Lemma rejected_empty_or_admissible (evs : list Event) :
  Forall (admissible (fun x => x <> JS.Error "")) evs
  \/ exists i, Settle i (Rejected (JS.Error "")) ∈ evs.
Proof.
  induction evs as [|ev evs [IH | [i IH]]].
  - left. constructor.
  - destruct ev as [file|file| | |i [v|response|[[|c message]|shown]|]];
      try (left; constructor; [cbn; auto; discriminate | exact IH]).
    right. exists i. left.
  - right. exists i. now right.
Qed.

(** C4, as the code has it.  Take any state the machine reaches, and any
    earlier point of its history at which the state was [initial]: a
    session begins at such a point.  In the state [result] the file, its
    preview URL and the processed image are present.  In the state
    [error] there is no processed image, and the error text is empty only
    if, since that point, a service call was rejected with an [Error]
    whose message is empty; rejections in earlier sessions do not
    matter. *)
Theorem session_invariant (e : gmap string string)
    (before since : list Event) (m0 m : Machine) :
  exec (boot e) before = Some m0 ->
  appState (current m0) = initial ->
  exec m0 since = Some m ->
  (appState (current m) = result ->
   is_Some (originalFile (current m)) /\
   is_Some (originalImageUrl (current m)) /\
   is_Some (processedImageUrl (current m))) /\
  (appState (current m) = error ->
   processedImageUrl (current m) = None /\
   (errorMessage (current m) = "" ->
    exists i, Settle i (Rejected (JS.Error "")) ∈ since)).
Proof.
  intros Hbefore Ha0 Hsince.
  pose proof (reachable_Inv e m0 (ex_intro _ before Hbefore)) as HI0.
  assert (Hstart : forall G, Inv G m0).
  { intros G. unfold Inv in *. rewrite Ha0 in *. exact HI0. }
  pose proof (exec_Inv _ since _ _ (Hstart _) (admissible_any since) Hsince)
    as HI.
  unfold Inv in HI. split; intros Ha; rewrite Ha in HI; [tauto|].
  split; [tauto|]. intros Hempty.
  destruct (rejected_empty_or_admissible since) as [Hadm | Hrej];
    [|exact Hrej].
  pose proof (exec_Inv _ since _ _ (Hstart _) Hadm Hsince) as HG.
  unfold Inv in HG. rewrite Ha in HG. destruct HG as (_ & _ & _ & Hw & _).
  exfalso. apply Hw; [|exact Hempty]. intros x Hx. exact Hx.
Qed.

(** C4 as it is worded fails: a service call rejected with an [Error]
    whose message is empty leaves the state [error] with an empty error
    text. *)
Lemma error_text_can_be_empty :
  ~ (forall e m,
        reachable e m ->
        (appState (current m) = result ->
         is_Some (originalImageUrl (current m)) /\
         is_Some (processedImageUrl (current m))) /\
        (appState (current m) = error ->
         errorMessage (current m) <> "" /\
         processedImageUrl (current m) = None)).
Proof.
  intros Hclaim.
  pose (evs := [ FileChange (Some photo);
                 Settle 0 (Loaded (Some "data:image/png;base64,AAAA"));
                 Settle 0 Ticked;
                 Settle 0 (Rejected (JS.Error ""));
                 Settle 0 Ticked ]).
  destruct (exec (boot keyed) evs) as [m|] eqn:Hex;
    [|vm_compute in Hex; discriminate].
  destruct (Hclaim keyed m (ex_intro _ evs Hex)) as [_ Herr].
  vm_compute in Hex. injection Hex as <-.
  destruct Herr as [Hmsg _]; [reflexivity|]. apply Hmsg. reflexivity.
Qed.

(** ** The name of the download *)

Lemma lastIndexOf_from_dotless (s : string) :
  dotless s -> forall i, JS.lastIndexOf_from i s "." = -1.
Proof.
  induction s as [|c s IH]; intros Hs i; [reflexivity|].
  destruct Hs as [Hc Hs]. cbn. rewrite (IH Hs). cbn.
  destruct (Ascii.eqb_spec c "."); [contradiction | reflexivity].
Qed.

Lemma lastIndexOf_from_base (base ext : string) :
  dotless ext ->
  forall i, 0 <= i ->
    JS.lastIndexOf_from i (base +:+ "." +:+ ext) "."
    = i + Z.of_nat (String.length base).
Proof.
  intros Hext. induction base as [|c base IH]; intros i Hi.
  - change ("" +:+ "." +:+ ext) with (String "." ext).
    cbn [JS.lastIndexOf_from]. rewrite (lastIndexOf_from_dotless _ Hext).
    cbn. lia.
  - rewrite append_cons. cbn [JS.lastIndexOf_from String.length].
    rewrite IH by lia.
    destruct (Z.leb_spec 0 (i + 1 + Z.of_nat (String.length base))); lia.
Qed.

Lemma length_append (s t : string) :
  String.length (s +:+ t) = (String.length s + String.length t)%nat.
Proof.
  induction s as [|c s IH]; [reflexivity|].
  rewrite append_cons. cbn. now rewrite IH.
Qed.

Lemma substring_0_append (base rest : string) :
  String.substring 0 (String.length base) (base +:+ rest) = base.
Proof.
  induction base as [|c base IH]; [now destruct rest|].
  rewrite append_cons. cbn. now rewrite IH.
Qed.

Lemma substring_base (base rest : string) :
  JS.substring (base +:+ rest) 0 (Z.of_nat (String.length base)) = base.
Proof.
  unfold JS.substring. rewrite length_append.
  replace (Z.min _ _) with 0 by lia.
  replace (Z.to_nat (_ - 0)) with (String.length base) by lia.
  apply substring_0_append.
Qed.

Lemma substring_none (s : string) : JS.substring s 0 (-1) = "".
Proof.
  unfold JS.substring.
  replace (Z.min _ _) with 0 by lia.
  replace (Z.to_nat (_ - 0)) with 0%nat by lia.
  now destruct s.
Qed.

(** C8, as the code has it.  The download is named after the part of the
    file name before its last dot, followed by [_no_bg.png], when that
    part is not empty; when the file name is unavailable, has no dot, or
    has nothing before its last dot, the name is [image_no_bg.png]. *)
Theorem download_name (processed fileName : option string) :
  href (downloadImage processed fileName) = processed /\
  (forall n base,
      fileName = Some n -> base_name_of n base -> base <> "" ->
      download (downloadImage processed fileName) = base +:+ "_no_bg.png") /\
  (forall n,
      fileName = Some n -> base_name_of n "" \/ dotless n ->
      download (downloadImage processed fileName) = "image_no_bg.png") /\
  (fileName = None ->
   download (downloadImage processed fileName) = "image_no_bg.png").
Proof.
  split; [reflexivity|]. split; [|split].
  - intros n base -> (ext & -> & Hext) Hbase. unfold downloadImage. cbn.
    unfold JS.lastIndexOf.
    rewrite (lastIndexOf_from_base base ext Hext 0) by lia.
    rewrite Z.add_0_l, substring_base.
    destruct base; [contradiction | reflexivity].
  - intros n -> [(ext & -> & Hext) | Hn]; unfold downloadImage; cbn;
      unfold JS.lastIndexOf.
    + rewrite (lastIndexOf_from_base "" ext Hext 0) by lia.
      rewrite Z.add_0_l, substring_base. reflexivity.
    + rewrite (lastIndexOf_from_dotless n Hn), substring_none. reflexivity.
  - intros ->. reflexivity.
Qed.

(** C8 as it is worded fails: a file name with nothing before its last
    dot is available, yet the download takes the default name. *)
Lemma download_name_not_always_base :
  ~ (forall processed fileName base,
        base_name_of fileName base ->
        download (downloadImage processed (Some fileName))
        = base +:+ "_no_bg.png").
Proof.
  intros Hclaim.
  assert (Hbase : base_name_of ".png" "").
  { exists "png". split; [reflexivity|]. cbn. repeat split; discriminate. }
  specialize (Hclaim None ".png" "" Hbase). vm_compute in Hclaim.
  discriminate.
Qed.

(** ** The claims at sample inputs *)

Lemma removeBackground_response_handling_sample :
  exists st',
    complete (removeBackground photo) (store (boot keyed))
      [ Loaded (Some "data:image/png;base64,AAAA"); Ticked;
        Responded (reply_with [text_part "here it is"; image_part]) ]
    = Some (st', inr (Some "QUJD")).
Proof.
  destruct (removeBackground_response_handling photo (store (boot keyed))
              (Some "data:image/png;base64,AAAA")
              (reply_with [text_part "here it is"; image_part]))
    as (st' & outcome & Hrun & Himage & _).
  - vm_compute. reflexivity.
  - exists st'. rewrite Hrun.
    rewrite (Himage [text_part "here it is"] image_part []
               {| data := Some "QUJD"; mimeType := Some "image/png" |});
      [reflexivity | reflexivity | | reflexivity].
    repeat constructor.
Defined.

Lemma removeBackground_degenerate_response_sample :
  exists st',
    complete (removeBackground photo) (store (boot keyed))
      [ Loaded None; Ticked; Responded (reply_with [text_part ""]) ]
    = Some (st', inl (JS.Error no_image_message)).
Proof.
  destruct (removeBackground_degenerate_response photo (store (boot keyed))
              None (reply_with [text_part ""])) as (_ & Hgeneric & _).
  - vm_compute. reflexivity.
  - apply Hgeneric. unfold degenerate. right. right. eexists. eexists. split; [reflexivity|].
    right. eexists. split; [reflexivity|].
    right. eexists. split; [reflexivity|].
    constructor; [split; [reflexivity | right; reflexivity] | constructor].
Defined.

Lemma removeBackground_missing_credential_sample :
  run (removeBackground photo) (store (boot ∅))
  = (record (Did (GetEnv "API_KEY")) (store (boot ∅)),
     Failed (JS.Error missing_key_message)).
Proof.
  destruct (removeBackground_missing_credential photo (store (boot ∅)))
    as (Hrun & _).
  - vm_compute. reflexivity.
  - exact Hrun.
Defined.

Lemma submission_passes_through_loading_sample :
  exists m' rest,
    dispatch (boot keyed) (Drop (Some photo)) = Some m' /\
    appState (current m') = loading /\
    log (store m')
    = log (store (boot keyed)) ++
      [ Did (SetAppState loading);
        Did (SetOriginalFile (Some photo));
        Did (SetProcessedImageUrl None);
        Did (SetErrorMessage "");
        Did (CreateObjectURL photo);
        Did (SetOriginalImageUrl (Some (object_url (minted (store (boot keyed))))));
        Did (GetEnv "API_KEY") ] ++ rest.
Proof.
  destruct (submission_passes_through_loading keyed (boot keyed))
    as (_ & Hsubmit & _).
  - exists []. reflexivity.
  - apply Hsubmit; [reflexivity|]. right. split; reflexivity.
Defined.

Lemma session_invariant_sample :
  exists m0 m,
    exec (boot keyed)
      [ FileChange (Some photo); Settle 0 (Loaded None); Settle 0 Ticked;
        Settle 0 (Rejected (JS.Error "")); Settle 0 Ticked; ClickReset ]
    = Some m0 /\
    exec m0
      [ FileChange (Some photo); Settle 0 (Loaded None); Settle 0 Ticked;
        Settle 0 (Rejected (JS.Error "quota exceeded")); Settle 0 Ticked ]
    = Some m /\
    appState (current m) = error /\
    processedImageUrl (current m) = None /\
    errorMessage (current m) <> "".
Proof.
  edestruct session_invariant
    with (e := keyed)
         (before := [ FileChange (Some photo); Settle 0 (Loaded None);
                      Settle 0 Ticked; Settle 0 (Rejected (JS.Error ""));
                      Settle 0 Ticked; ClickReset ])
         (since := [ FileChange (Some photo); Settle 0 (Loaded None);
                     Settle 0 Ticked;
                     Settle 0 (Rejected (JS.Error "quota exceeded"));
                     Settle 0 Ticked ])
    as [_ Herror].
  - vm_compute. reflexivity.
  - reflexivity.
  - vm_compute. reflexivity.
  - eexists. eexists. split; [vm_compute; reflexivity|].
    split; [vm_compute; reflexivity|]. split; [reflexivity|].
    destruct Herror as [Hproc Hmsg]; [reflexivity|].
    split; [exact Hproc|]. intros Hempty.
    destruct (Hmsg Hempty) as [i Hin].
    repeat (apply elem_of_cons in Hin as [Hin | Hin]; [discriminate Hin|]).
    now apply elem_of_nil in Hin.
Defined.

Lemma processFile_rejection_sample :
  exists st2,
    complete (processFile photo) (store (boot keyed))
      ([Loaded None; Ticked; Rejected (JS.Other "offline")] ++ [Ticked])
    = Some (st2, inr tt) /\
    appState (session st2) = error /\
    errorMessage (session st2) = unknown_error_message.
Proof.
  eapply (processFile_rejection photo (store (boot keyed)) _
            [Loaded None; Ticked; Rejected (JS.Other "offline")]
            (JS.Other "offline")).
  vm_compute. reflexivity.
Defined.

Lemma rejection_keeps_source_sample :
  exists m m',
    exec (boot ∅) [FileChange (Some photo)] = Some m /\
    dispatch m (Settle 0 Ticked) = Some m' /\
    originalFile (current m') = Some photo /\
    originalImageUrl (current m') = originalImageUrl (current m).
Proof.
  eexists. eexists. split; [vm_compute; reflexivity|].
  split; [vm_compute; reflexivity|].
  split; [reflexivity|].
  eapply (rejection_keeps_source ∅ _ _ (Settle 0 Ticked)).
  - exists [FileChange (Some photo)]. vm_compute. reflexivity.
  - vm_compute. reflexivity.
  - reflexivity.
Defined.

(** * Further properties of the client *)

Lemma split_lacks (sep : ascii) (s : string) :
  lacks sep s -> JS.split sep s = [s].
Proof.
  induction s as [|c s IH]; intros Hs; [reflexivity|].
  destruct Hs as [Hc Hs]. cbn. rewrite (IH Hs).
  destruct (Ascii.eqb_spec c sep); [contradiction | reflexivity].
Qed.

Lemma split_at_first (sep : ascii) (before after : string) :
  lacks sep before ->
  JS.split sep (before +:+ String sep after) = before :: JS.split sep after.
Proof.
  induction before as [|c before IH]; intros Hs.
  - change ("" +:+ String sep after) with (String sep after). cbn.
    now rewrite Ascii.eqb_refl.
  - destruct Hs as [Hc Hs]. rewrite append_cons. cbn. rewrite (IH Hs).
    destruct (Ascii.eqb_spec c sep); [contradiction | reflexivity].
Qed.

(** X1. [fileToGenerativePart] never rejects.  For a data URL, that is a
    comma-free header, a comma and a comma-free payload, it resolves with
    the payload as data; for a reader result without a comma the data is
    undefined; when the reader has no string result the data is the empty
    string.  The media type is always the file's own. *)
Theorem fileToGenerativePart_payload (file : File) (st : Store)
    (header payload : string) :
  lacks "," header -> lacks "," payload ->
  complete (fileToGenerativePart file) st
    [Loaded (Some (header +:+ String "," payload))]
  = Some (record (Started (ReadAsDataURL file)) st,
          inr {| inlineData := Some {| data := Some payload;
                                       mimeType := Some (type file) |};
                 text := None |}) /\
  complete (fileToGenerativePart file) st [Loaded (Some header)]
  = Some (record (Started (ReadAsDataURL file)) st,
          inr {| inlineData := Some {| data := None;
                                       mimeType := Some (type file) |};
                 text := None |}) /\
  complete (fileToGenerativePart file) st [Loaded None]
  = Some (record (Started (ReadAsDataURL file)) st,
          inr {| inlineData := Some {| data := Some "";
                                       mimeType := Some (type file) |};
                 text := None |}) /\
  (forall r st' e,
      complete (fileToGenerativePart file) st [r] <> Some (st', inl e)).
Proof.
  intros Hh Hp. unfold fileToGenerativePart. cbn.
  rewrite (split_at_first "," header payload Hh), (split_lacks "," payload Hp).
  rewrite (split_lacks "," header Hh). cbn.
  repeat split. intros r st' e. destruct r; cbn; discriminate.
Qed.

Ltac next_reply H rs :=
  destruct rs as [|[?v|?response|?reason|] rs]; cbn in H; try discriminate H.

(** X2. With a key, a call of the client that settles has been answered
    exactly three times (the file reader, a microtask, the service) and
    has started exactly one request: it carries the key, the fixed model
    name, the file's data and media type, and the fixed instruction.
    Nothing is sent twice. *)
Theorem removeBackground_single_request (file : File) (st st1 : Store)
    (rs : list Reply) (o : JS.Thrown + option string) :
  JS.truthy (env st !! "API_KEY") = true ->
  complete (removeBackground file) st rs = Some (st1, o) ->
  exists v r,
    rs = [Loaded v; Ticked; r] /\
    log st1
    = log st ++
      [ Did (GetEnv "API_KEY");
        Did (GetEnv "API_KEY");
        Started (ReadAsDataURL file);
        Started Microtask;
        Started (GenerateContent {| apiKey := env st !! "API_KEY" |}
                   (request_for file v)) ].
Proof.
  intros Hkey Hrun. unfold removeBackground in Hrun. cbn in Hrun.
  rewrite Hkey in Hrun. cbn in Hrun.
  next_reply Hrun rs. next_reply Hrun rs.
  assert (Hlog : forall (p : Prog (option string)) (rs : list Reply),
             complete p
               (record (Started (GenerateContent {| apiKey := env st !! "API_KEY" |}
                                   (request_for file v)))
                  (record (Started Microtask)
                     (record (Started (ReadAsDataURL file))
                        (record (Did (GetEnv "API_KEY"))
                           (record (Did (GetEnv "API_KEY")) st))))) rs
             = Some (st1, o) ->
             (exists a, p = Ret a) \/ (exists e, p = Throw e) ->
             rs = [] /\
             log st1 = log st ++
               [ Did (GetEnv "API_KEY"); Did (GetEnv "API_KEY");
                 Started (ReadAsDataURL file); Started Microtask;
                 Started (GenerateContent {| apiKey := env st !! "API_KEY" |}
                            (request_for file v)) ]).
  { intros p rs' Hp [[a ->] | [e ->]]; cbn in Hp;
      destruct rs'; try discriminate Hp;
      injection Hp as <- <-; (split; [reflexivity|]);
      cbn; rewrite <- !app_assoc; reflexivity. }
  next_reply Hrun rs.
  - exists v, (Responded response).
    match type of Hrun with
    | complete ?p _ _ = _ => destruct (Hlog p rs Hrun) as [-> Hl]
    end.
    + destruct (find_part _ response ≫= inlineData); [left; eauto|].
      destruct (JS.truthy (_ ≫= text)); right; eauto.
    + split; [reflexivity | exact Hl].
  - exists v, (Rejected reason).
    destruct (Hlog (Throw reason) rs Hrun) as [-> Hl]; [right; eauto|].
    split; [reflexivity | exact Hl].
Qed.

(** X3. A rejection of the service call is passed on unchanged: the
    client rejects with the very value the service rejected with. *)
Theorem removeBackground_passes_rejection (file : File) (st : Store)
    (v : option string) (e : JS.Thrown) :
  JS.truthy (env st !! "API_KEY") = true ->
  exists st',
    complete (removeBackground file) st [Loaded v; Ticked; Rejected e]
    = Some (st', inl e).
Proof.
  intros Hkey. unfold removeBackground. cbn. rewrite Hkey. cbn.
  eexists. reflexivity.
Qed.

(** X4. An [API_KEY] that is set to the empty string counts as missing:
    the call fails with the same error, having read the environment and
    nothing else. *)
Theorem removeBackground_empty_credential (file : File) (st : Store) :
  env st !! "API_KEY" = Some "" ->
  run (removeBackground file) st
  = (record (Did (GetEnv "API_KEY")) st, Failed (JS.Error missing_key_message)).
Proof.
  intros Hkey. unfold removeBackground. cbn. rewrite Hkey. reflexivity.
Qed.

(** X5. A call of the client, however the environment answers it, leaves
    the controller's state, the process environment and the count of
    object URLs as they were: it only reads the key and waits. *)
Theorem removeBackground_leaves_session (file : File) (st st1 : Store)
    (rs : list Reply) (o : JS.Thrown + option string) :
  complete (removeBackground file) st rs = Some (st1, o) ->
  session st1 = session st /\ env st1 = env st /\ minted st1 = minted st.
Proof. apply silent_complete, removeBackground_silent. Qed.

(** * Further properties of the controller *)

(** X6. When the client's call resolves, [processFile] ends in the state
    [result]: the processed image is the data URL made of the fixed PNG
    prefix and the returned data (the text [undefined] when the part had
    no data), the file and its preview URL are kept and the error text is
    empty. *)
Theorem processFile_success (file : File) (st st1 : Store) (rs : list Reply)
    (resultBase64 : option string) :
  complete (removeBackground file) (at_call file st) rs
  = Some (st1, inr resultBase64) ->
  exists st2,
    complete (processFile file) st (rs ++ [Ticked]) = Some (st2, inr tt) /\
    session st2
    = {| originalFile := Some file;
         originalImageUrl := Some (object_url (minted st));
         processedImageUrl :=
           Some ("data:image/png;base64," +:+
                 match resultBase64 with
                 | Some d => d
                 | None => "undefined"
                 end);
         appState := result;
         errorMessage := "" |}.
Proof.
  intros Hcall.
  destruct (processFile_settles _ _ _ _ _ Hcall) as (st2 & Hrun & Hs).
  exists st2. split; [exact Hrun|]. rewrite Hs. reflexivity.
Qed.

(** X7. Without a usable [API_KEY] (none, or the empty string) a
    submitted file ends in the state [error] after one microtask, showing
    the message about the key; the log shows that the file was never read
    and no request was started. *)
Theorem processFile_missing_credential (file : File) (st : Store) :
  JS.truthy (env st !! "API_KEY") = false ->
  exists st2,
    complete (processFile file) st [Ticked] = Some (st2, inr tt) /\
    session st2
    = {| originalFile := Some file;
         originalImageUrl := Some (object_url (minted st));
         processedImageUrl := None;
         appState := error;
         errorMessage := missing_key_message |} /\
    log st2
    = log (at_call file st) ++
      [ Did (GetEnv "API_KEY");
        Started Microtask;
        Did (ConsoleError "Error processing image:"
               (JS.Error missing_key_message));
        Did (SetErrorMessage missing_key_message);
        Did (SetAppState error) ].
Proof.
  intros Hkey. unfold processFile, removeBackground. cbn. rewrite Hkey. cbn.
  eexists. repeat split. cbn. rewrite <- !app_assoc. reflexivity.
Qed.

(** X8. A response without an image reaches the user as the error text:
    the fixed prefix followed by the text of the first part whose text is
    not empty, or the generic message when no part has such a text. *)
Theorem processFile_shows_refusal (file : File) (st : Store)
    (v : option string) (response : GenerateContentResponse) :
  JS.truthy (env st !! "API_KEY") = true ->
  Forall (fun q => inlineData q = None) (response_parts response) ->
  exists st2,
    complete (processFile file) st
      ([Loaded v; Ticked; Responded response] ++ [Ticked])
    = Some (st2, inr tt) /\
    appState (session st2) = error /\
    (forall l1 p l2 t,
        response_parts response = l1 ++ p :: l2 ->
        Forall (fun q => JS.truthy (text q) = false) l1 ->
        text p = Some t -> t <> "" ->
        errorMessage (session st2) = text_response_prefix +:+ t) /\
    (Forall (fun q => JS.truthy (text q) = false) (response_parts response) ->
     errorMessage (session st2) = no_image_message).
Proof.
  intros Hkey Hno.
  destruct (removeBackground_responded file (at_call file st) v response Hkey)
    as [st1 Hcall].
  rewrite !find_part_parts in Hcall.
  rewrite (find_nothing _ (response_parts response)) in Hcall.
  2:{ eapply Forall_impl; [exact Hno|]. intros q Hq. now rewrite Hq. }
  cbn in Hcall.
  destruct (processFile_settles _ _ _ _ _ Hcall) as (st2 & Hrun & Hs).
  exists st2. split; [exact Hrun|].
  destruct (List.find _ (response_parts response)) as [p0|] eqn:Hfind.
  - assert (Htruthy : JS.truthy (text p0) = true)
      by (now apply find_some in Hfind).
    cbn in Hs. rewrite Htruthy in Hs. rewrite Hs. split; [reflexivity|]. split.
    + intros l1 p l2 t Hps Hl1 Hp Ht.
      rewrite Hps, (find_first (fun part => JS.truthy (text part)) l1 l2 p)
        in Hfind.
      * injection Hfind as <-. cbn. rewrite Hp. reflexivity.
      * exact Hl1.
      * rewrite Hp. destruct t; [contradiction | reflexivity].
    + intros Hall. rewrite find_nothing in Hfind; [discriminate | exact Hall].
  - cbn in Hs. rewrite Hs. split; [reflexivity|]. split.
    + intros l1 p l2 t Hps Hl1 Hp Ht.
      rewrite Hps, (find_first (fun part => JS.truthy (text part)) l1 l2 p)
        in Hfind; [discriminate | exact Hl1 |].
      rewrite Hp. destruct t; [contradiction | reflexivity].
    + reflexivity.
Qed.

(** ** Turns of the event loop *)

Lemma cleanup_same (before : option string) (m : Machine) :
  originalImageUrl (current m) = before -> cleanup before m = m.
Proof.
  intros Hsame. unfold cleanup. destruct before as [u|]; [|reflexivity].
  now rewrite bool_decide_eq_true_2.
Qed.


Lemma submit_dispatch (m : Machine) (ev : Event) (file : File) :
  appState (current m) = initial -> submits ev file ->
  dispatch m ev
  = Some (cleanup (originalImageUrl (current m)) (schedule (processFile file) m)).
Proof.
  intros Ha Hsub. unfold dispatch, react, renderContent. rewrite Ha.
  destruct Hsub as [-> | [-> Himg]]; cbn [handleFileChange handleDrop task];
    rewrite ?Himg; reflexivity.
Qed.


(** X10. In every reachable machine there is at most one activation in
    flight, and exactly one in the state [loading]: there the file and
    its preview URL are held, no processed image and no error text are
    set, and no user event is accepted, so a pending request is neither
    cancelled nor joined by a second one.  In the state [initial] the
    session is blank. *)
Theorem one_request_in_flight (e : gmap string string) (m : Machine) :
  reachable e m ->
  (appState (current m) = loading ->
   List.length (pending m) = 1%nat /\
   is_Some (originalFile (current m)) /\
   is_Some (originalImageUrl (current m)) /\
   processedImageUrl (current m) = None /\
   errorMessage (current m) = "" /\
   forall ev, user_event ev -> dispatch m ev = None) /\
  (appState (current m) <> loading -> pending m = []) /\
  (appState (current m) = initial -> current m = blank).
Proof.
  intros Hreach. pose proof (reachable_Inv _ _ Hreach) as HI.
  unfold Inv in HI. split; [|split].
  - intros Ha. rewrite Ha in HI.
    destruct HI as (Hf & Hu & Hproc & Hmsg & t & Hp & _).
    rewrite Hp. repeat split; try assumption.
    intros ev Hev. unfold dispatch, react, renderContent. rewrite Ha.
    destruct ev; try reflexivity. destruct Hev.
  - intros Hn. destruct (appState (current m)); tauto.
  - intros Ha. rewrite Ha in HI. tauto.
Qed.

(** X11. The states [result] and [error] are left only by the user: in a
    reachable machine in one of them nothing is pending and nothing is
    retried, the one event accepted in [error] is the reset, and in
    [result] the reset or a download, which leaves the session as it
    is. *)
Theorem settled_until_reset (e : gmap string string) (m m' : Machine)
    (ev : Event) :
  reachable e m ->
  appState (current m) = error \/ appState (current m) = result ->
  dispatch m ev = Some m' ->
  (ev = ClickReset /\ current m' = blank /\ pending m' = []) \/
  (ev = ClickDownload /\ appState (current m) = result /\
   current m' = current m /\ pending m' = []).
Proof.
  intros Hreach Hstate Hd. pose proof (reachable_Inv _ _ Hreach) as HI.
  assert (Hp : pending m = []).
  { unfold Inv in HI. destruct Hstate as [Ha | Ha]; rewrite Ha in HI; tauto. }
  unfold dispatch in Hd.
  destruct (react m ev) as [m0|] eqn:Hr; [|discriminate]. injection Hd as <-.
  destruct (cleanup_current (originalImageUrl (current m)) m0) as [-> ->].
  destruct ev as [file|file| | |i r]; unfold react, renderContent in Hr.
  - destruct Hstate as [Ha | Ha]; rewrite Ha in Hr; discriminate.
  - destruct Hstate as [Ha | Ha]; rewrite Ha in Hr; discriminate.
  - left. split; [reflexivity|].
    assert (Hm0 : m0 = schedule (handleReset (originalImageUrl (current m))) m)
      by (destruct Hstate as [Ha | Ha]; rewrite Ha in Hr; now injection Hr).
    destruct (reset_blank (originalImageUrl (current m)) (store m)) as [Hdone Hb].
    subst m0. unfold current at 1.
    rewrite schedule_store, schedule_pending, Hdone, Hp. split; [exact Hb | reflexivity].
  - right. destruct Hstate as [Ha | Ha]; rewrite Ha in Hr; [discriminate|].
    injection Hr as <-. repeat split; [exact Ha | exact Hp].
  - rewrite Hp in Hr. discriminate.
Qed.




(** X13. In a reachable machine in the state [result] the file is still
    held, so the download always gets the file's name to work from; a
    click on the download button adds exactly one download, whose link is
    the processed image, and changes nothing else. *)
Theorem download_click (e : gmap string string) (m : Machine) :
  reachable e m ->
  appState (current m) = result ->
  exists f url,
    originalFile (current m) = Some f /\
    processedImageUrl (current m) = Some url /\
    dispatch m ClickDownload
    = Some {| store := store m;
              pending := pending m;
              downloads := downloads m ++
                           [downloadImage (Some url) (Some (name f))] |}.
Proof.
  intros Hreach Ha. pose proof (reachable_Inv _ _ Hreach) as HI.
  unfold Inv in HI. rewrite Ha in HI.
  destruct HI as ([f Hf] & _ & [url Hurl] & _).
  exists f, url. split; [exact Hf|]. split; [exact Hurl|].
  unfold dispatch, react, renderContent. rewrite Ha, Hf, Hurl.
  cbn [fmap option_fmap option_map]. now rewrite cleanup_same.
Qed.

(** ** The event loop and the awaited call *)

Lemma complete_run {A : Type} (p : Prog A) :
  forall st rs, complete p st rs = continue (run p st) rs.
Proof.
  induction p as [a|e|X op k IH|X op k _ h _]; intros st rs;
    try reflexivity.
  cbn. destruct (effect op (record (Did op) st)) as [x st']. apply IH.
Qed.

Lemma tail_url (p : Prog unit) (st : Store) :
  tail_ok (fun _ => True) p ->
  originalImageUrl (session (fst (run p st))) = originalImageUrl (session st).
Proof.
  intros Hp. destruct (run_tail_ok _ p Hp st) as [_ Hrun].
  destruct (snd (run p st)) as [[]|e|X op k h].
  - destruct Hrun as [(v & ->) | (msg & _ & ->)]; reflexivity.
  - destruct Hrun.
  - now rewrite Hrun.
Qed.

Lemma settle_may_reject {X : Type} (op : AsyncOp X) (r : Reply) (e : JS.Thrown) :
  settle op r = Some (inl e) -> may_reject (fun _ => True) op e.
Proof. destruct op; destruct r; cbn; (discriminate || auto). Qed.

Lemma exec_parked {X : Type} (op : AsyncOp X) (k : X -> Prog unit)
    (h : JS.Thrown -> Prog unit) :
  (forall x, tail_ok (fun _ => True) (k x)) ->
  (forall e, may_reject (fun _ => True) op e -> tail_ok (fun _ => True) (h e)) ->
  (forall x, agrees (k x)) ->
  (forall e, may_reject (fun _ => True) op e -> agrees (h e)) ->
  forall st rs st2 ds,
    continue (st, Parked op k h) rs = Some (st2, inr tt) ->
    exec {| store := st; pending := [Suspended op k h]; downloads := ds |}
         (map (Settle 0) rs)
    = Some {| store := st2; pending := []; downloads := ds |}.
Proof.
  intros Hk Hh Ak Ah st rs st2 ds Hc.
  destruct rs as [|r rs]; [discriminate|]. cbn in Hc.
  cbn [map exec]. unfold dispatch, react.
  cbn [pending lookup list_lookup mbind option_bind resume].
  destruct (settle op r) as [[e|x]|] eqn:Hs; [| |discriminate].
  - pose proof (settle_may_reject _ _ _ Hs) as He.
    cbn [mbind option_bind fmap option_fmap option_map store downloads
           delete list_delete].
    rewrite cleanup_same; [exact (Ah e He _ _ _ _ Hc)|].
    unfold current at 1. rewrite schedule_store. cbn [store].
    now apply tail_url, Hh.
  - cbn [mbind option_bind fmap option_fmap option_map store downloads
           delete list_delete].
    rewrite cleanup_same; [exact (Ak x _ _ _ _ Hc)|].
    unfold current at 1. rewrite schedule_store. cbn [store].
    now apply tail_url, Hk.
Qed.

Lemma exec_tail (p : Prog unit) : tail_ok (fun _ => True) p -> agrees p.
Proof.
  induction 1 as [p Hp|key k _ IH|X op k h Hk IHk Hh IHh];
    intros st rs st2 ds Hc.
  - destruct (Hp st) as (st' & Hrun & _).
    rewrite complete_run, Hrun in Hc. cbn in Hc.
    destruct rs; [|discriminate]. injection Hc as <-.
    unfold schedule. cbn [store]. rewrite Hrun. reflexivity.
  - exact (IH (env st !! key) (record (Did (GetEnv key)) st) rs st2 ds Hc).
  - exact (exec_parked op k h Hk Hh IHk IHh
             (record (Started op) st) rs st2 ds Hc).
Qed.

(** X14. The event loop agrees with the awaited call.  When a file is
    submitted in the state [initial] of a reachable machine and
    [processFile], awaited to its end with the replies [rs], ends in the
    store [st2], then the event loop, taking the submission and then one
    turn for each reply, ends in that same store with nothing pending. *)
Theorem event_loop_agrees (e : gmap string string) (m : Machine) (ev : Event)
    (file : File) (rs : list Reply) (st2 : Store) :
  reachable e m ->
  appState (current m) = initial ->
  submits ev file ->
  complete (processFile file) (store m) rs = Some (st2, inr tt) ->
  exec m (ev :: map (Settle 0) rs)
  = Some {| store := st2; pending := []; downloads := downloads m |}.
Proof.
  intros Hreach Ha Hsub Hc. pose proof (reachable_Inv _ _ Hreach) as HI.
  unfold Inv in HI. rewrite Ha in HI. destruct HI as [Hblank Hpend].
  cbn [exec]. rewrite (submit_dispatch m ev file Ha Hsub), Hblank.
  cbn [originalImageUrl blank cleanup mbind option_bind].
  destruct (processFile_parks (fun _ => True) file (store m))
    as (t & rest & Ht & Hok & _).
  rewrite complete_run in Hc.
  unfold schedule. rewrite Hpend.
  destruct (run (processFile file) (store m)) as [st' [[]|e0|X op k h]];
    cbn in Ht; try discriminate Ht.
  injection Ht as <-. destruct Hok as [Hk Hh]. cbn [app park].
  apply (exec_parked op k h Hk Hh); [| |exact Hc].
  - intros x. apply exec_tail, Hk.
  - intros e1 He1. apply exec_tail. now apply Hh.
Qed.

(** ** The drop zone's highlight *)

Lemma classList_remove_absent (tokens classList : list string) :
  (forall c, c ∈ classList -> c ∉ tokens) ->
  classList_remove tokens classList = classList.
Proof.
  unfold classList_remove. induction classList as [|c cl IH]; intros Hcl;
    [reflexivity|].
  rewrite filter_cons_True by (apply Hcl; left).
  rewrite IH; [reflexivity|]. intros c' Hc'. apply Hcl. now right.
Qed.

(** X15. Dragging over the drop zone adds the two highlight classes at
    the end of its class list; leaving it or dropping on it takes them
    away again, so that a class list without them is back as it was;
    entering twice adds nothing more. *)
Theorem drag_highlight_round_trip (classList : list string) :
  "border-indigo-400" ∉ classList ->
  "bg-gray-800" ∉ classList ->
  handleDragEnter_classList classList
  = classList ++ ["border-indigo-400"; "bg-gray-800"] /\
  handleDragLeave_classList (handleDragEnter_classList classList) = classList /\
  handleDrop_classList (handleDragEnter_classList classList) = classList /\
  handleDragEnter_classList (handleDragEnter_classList classList)
  = handleDragEnter_classList classList.
Proof.
  intros Ha Hb.
  assert (Henter : handleDragEnter_classList classList
                   = classList ++ ["border-indigo-400"; "bg-gray-800"]).
  { unfold handleDragEnter_classList, classList_add. cbn [foldl].
    rewrite (bool_decide_eq_false_2 ("border-indigo-400" ∈ classList))
      by exact Ha.
    rewrite bool_decide_eq_false_2.
    - now rewrite <- app_assoc.
    - rewrite elem_of_app, list_elem_of_singleton. intros [H | H];
        [contradiction | discriminate]. }
  assert (Hremove : classList_remove ["border-indigo-400"; "bg-gray-800"]
                      (classList ++ ["border-indigo-400"; "bg-gray-800"])
                    = classList).
  { unfold classList_remove. rewrite filter_app.
    fold (classList_remove ["border-indigo-400"; "bg-gray-800"] classList).
    rewrite classList_remove_absent.
    - rewrite filter_cons_False, filter_cons_False, filter_nil.
      + apply app_nil_r.
      + intros H. apply H. set_solver.
      + intros H. apply H. set_solver.
    - intros c Hc Hin. apply elem_of_cons in Hin as [-> | Hin];
        [contradiction|].
      apply list_elem_of_singleton in Hin as ->. contradiction. }
  split; [exact Henter|].
  unfold handleDragLeave_classList, handleDrop_classList.
  rewrite Henter, Hremove. repeat split.
  unfold handleDragEnter_classList, classList_add. cbn [foldl].
  rewrite (bool_decide_eq_true_2
             ("border-indigo-400"
                ∈ classList ++ ["border-indigo-400"; "bg-gray-800"]))
    by set_solver.
  rewrite bool_decide_eq_true_2 by set_solver.
  reflexivity.
Qed.

(** ** The further properties at sample inputs *)

Lemma fileToGenerativePart_payload_sample :
  complete (fileToGenerativePart photo) (store (boot keyed))
    [Loaded (Some ("data:image/png;base64" +:+ String "," "iVBORw0KGgo="))]
  = Some (record (Started (ReadAsDataURL photo)) (store (boot keyed)),
          inr {| inlineData := Some {| data := Some "iVBORw0KGgo=";
                                       mimeType := Some "image/png" |};
                 text := None |}).
Proof.
  apply (fileToGenerativePart_payload photo (store (boot keyed))
           "data:image/png;base64" "iVBORw0KGgo=");
    cbn; repeat split; discriminate.
Defined.

Lemma removeBackground_single_request_sample :
  exists st1 v r,
    complete (removeBackground photo) (store (boot keyed))
      [Loaded None; Ticked; Responded (reply_with [image_part])]
    = Some (st1, inr (Some "QUJD")) /\
    [Loaded None; Ticked; Responded (reply_with [image_part])]
    = [Loaded v; Ticked; r] /\
    log st1
    = log (store (boot keyed)) ++
      [ Did (GetEnv "API_KEY");
        Did (GetEnv "API_KEY");
        Started (ReadAsDataURL photo);
        Started Microtask;
        Started (GenerateContent
                   {| apiKey := env (store (boot keyed)) !! "API_KEY" |}
                   (request_for photo v)) ].
Proof.
  eexists.
  edestruct removeBackground_single_request
    with (file := photo) (st := store (boot keyed))
         (rs := [Loaded None; Ticked; Responded (reply_with [image_part])])
    as (v & r & Hrs & Hlog).
  - vm_compute. reflexivity.
  - vm_compute. reflexivity.
  - exists v, r. split; [vm_compute; reflexivity|]. split; [exact Hrs | exact Hlog].
Defined.

Lemma removeBackground_passes_rejection_sample :
  exists st',
    complete (removeBackground photo) (store (boot keyed))
      [Loaded None; Ticked; Rejected (JS.Error "503 Service Unavailable")]
    = Some (st', inl (JS.Error "503 Service Unavailable")).
Proof.
  apply (removeBackground_passes_rejection photo (store (boot keyed)) None
           (JS.Error "503 Service Unavailable")).
  vm_compute. reflexivity.
Defined.

Lemma removeBackground_empty_credential_sample :
  run (removeBackground photo) (store (boot {[ "API_KEY" := "" ]}))
  = (record (Did (GetEnv "API_KEY")) (store (boot {[ "API_KEY" := "" ]})),
     Failed (JS.Error missing_key_message)).
Proof.
  apply (removeBackground_empty_credential photo
           (store (boot {[ "API_KEY" := "" ]}))).
  vm_compute. reflexivity.
Defined.

Lemma removeBackground_leaves_session_sample :
  exists st1,
    complete (removeBackground photo) (at_call photo (store (boot keyed)))
      [Loaded None; Ticked; Rejected (JS.Other "offline")]
    = Some (st1, inl (JS.Other "offline")) /\
    session st1 = session (at_call photo (store (boot keyed))).
Proof.
  eexists. split; [vm_compute; reflexivity|].
  eapply (removeBackground_leaves_session photo
            (at_call photo (store (boot keyed))) _
            [Loaded None; Ticked; Rejected (JS.Other "offline")]).
  vm_compute. reflexivity.
Defined.

Lemma processFile_success_sample :
  exists st2,
    complete (processFile photo) (store (boot keyed))
      ([Loaded None; Ticked; Responded (reply_with [image_part])] ++ [Ticked])
    = Some (st2, inr tt) /\
    session st2
    = {| originalFile := Some photo;
         originalImageUrl := Some (object_url 0);
         processedImageUrl := Some ("data:image/png;base64," +:+ "QUJD");
         appState := result;
         errorMessage := "" |}.
Proof.
  eapply (processFile_success photo (store (boot keyed)) _
            [Loaded None; Ticked; Responded (reply_with [image_part])]
            (Some "QUJD")).
  vm_compute. reflexivity.
Defined.

Lemma processFile_missing_credential_sample :
  exists st2,
    complete (processFile photo) (store (boot ∅)) [Ticked] = Some (st2, inr tt) /\
    errorMessage (session st2) = missing_key_message.
Proof.
  destruct (processFile_missing_credential photo (store (boot ∅)))
    as (st2 & Hrun & Hs & _).
  - vm_compute. reflexivity.
  - exists st2. split; [exact Hrun|]. rewrite Hs. reflexivity.
Defined.

Lemma processFile_shows_refusal_sample :
  exists st2,
    complete (processFile photo) (store (boot keyed))
      ([Loaded None; Ticked;
        Responded (reply_with [text_part ""; text_part "I cannot do that."])]
         ++ [Ticked])
    = Some (st2, inr tt) /\
    errorMessage (session st2)
    = text_response_prefix +:+ "I cannot do that.".
Proof.
  destruct (processFile_shows_refusal photo (store (boot keyed)) None
              (reply_with [text_part ""; text_part "I cannot do that."]))
    as (st2 & Hrun & _ & Htext & _).
  - vm_compute. reflexivity.
  - repeat constructor.
  - exists st2. split; [exact Hrun|].
    apply (Htext [text_part ""] (text_part "I cannot do that.") []);
      [reflexivity | repeat constructor | reflexivity | discriminate].
Defined.


Lemma one_request_in_flight_sample :
  exists m,
    exec (boot keyed) [FileChange (Some photo)] = Some m /\
    List.length (pending m) = 1%nat /\
    dispatch m ClickReset = None.
Proof.
  eexists. split; [vm_compute; reflexivity|].
  edestruct one_request_in_flight with (e := keyed) as [Hloading _].
  - exists [FileChange (Some photo)]. vm_compute. reflexivity.
  - destruct Hloading as (Hlen & _ & _ & _ & _ & Hrefused); [reflexivity|].
    split; [exact Hlen | apply Hrefused; exact I].
Defined.

Lemma settled_until_reset_sample :
  exists m m',
    exec (boot ∅) [FileChange (Some photo); Settle 0 Ticked] = Some m /\
    dispatch m ClickReset = Some m' /\
    current m' = blank.
Proof.
  eexists. eexists. split; [vm_compute; reflexivity|].
  split; [vm_compute; reflexivity|].
  edestruct settled_until_reset with (e := (∅ : gmap string string))
                                     (ev := ClickReset)
    as [(_ & Hblank & _) | (Hev & _)].
  - exists [FileChange (Some photo); Settle 0 Ticked]. vm_compute. reflexivity.
  - left. reflexivity.
  - vm_compute. reflexivity.
  - exact Hblank.
  - discriminate Hev.
Defined.


Lemma download_click_sample :
  exists m f url,
    exec (boot keyed)
      [ FileChange (Some photo); Settle 0 (Loaded None); Settle 0 Ticked;
        Settle 0 (Responded (reply_with [image_part])); Settle 0 Ticked ]
    = Some m /\
    originalFile (current m) = Some f /\
    dispatch m ClickDownload
    = Some {| store := store m;
              pending := pending m;
              downloads := downloads m ++
                           [downloadImage (Some url) (Some (name f))] |}.
Proof.
  eexists.
  edestruct download_click with (e := keyed) as (f & url & Hf & _ & Hd).
  - exists [ FileChange (Some photo); Settle 0 (Loaded None); Settle 0 Ticked;
             Settle 0 (Responded (reply_with [image_part])); Settle 0 Ticked ].
    vm_compute. reflexivity.
  - reflexivity.
  - exists f, url. split; [vm_compute; reflexivity|]. split; [exact Hf | exact Hd].
Defined.

Lemma event_loop_agrees_sample :
  exists st2,
    complete (processFile photo) (store (boot ∅)) [Ticked] = Some (st2, inr tt) /\
    exec (boot ∅) [FileChange (Some photo); Settle 0 Ticked]
    = Some {| store := st2; pending := []; downloads := [] |}.
Proof.
  eexists. split; [vm_compute; reflexivity|].
  apply (event_loop_agrees ∅ (boot ∅) (FileChange (Some photo)) photo [Ticked]).
  - exists []. reflexivity.
  - reflexivity.
  - left. reflexivity.
  - vm_compute. reflexivity.
Defined.

Lemma drag_highlight_round_trip_sample :
  handleDragLeave_classList
    (handleDragEnter_classList
       [ "w-full"; "max-w-xl"; "p-8"; "bg-gray-800/50"; "rounded-2xl";
         "border-2"; "border-dashed"; "border-gray-600"; "transition-all";
         "duration-300"; "ease-in-out"; "text-center" ])
  = [ "w-full"; "max-w-xl"; "p-8"; "bg-gray-800/50"; "rounded-2xl";
      "border-2"; "border-dashed"; "border-gray-600"; "transition-all";
      "duration-300"; "ease-in-out"; "text-center" ].
Proof.
  apply (drag_highlight_round_trip
           [ "w-full"; "max-w-xl"; "p-8"; "bg-gray-800/50"; "rounded-2xl";
             "border-2"; "border-dashed"; "border-gray-600"; "transition-all";
             "duration-300"; "ease-in-out"; "text-center" ]);
    apply (bool_decide_unpack _); vm_compute; exact I.
Defined.
